(** * Codojo: commit ingestion, repository indexing and question answering

    A shallow embedding of [src/lib/github.ts], [src/lib/gemini.ts] and
    [src/app/(protected)/dashboard/actions.ts] (the latest revision of each
    file), and theorems about the retry executors, the commit ingestion
    pipeline, the file embedding pipeline, the vector search and the answer
    stream.

    Asynchronous functions are state transformers over a [World]: the
    database tables, the timeline of effects performed so far (timers and
    calls to remote services) and the state of the remote services.  A
    rejected promise is the [Throw] result.  Tasks started together
    ([Promise.all], [Promise.allSettled]) take their effects in the order in
    which they were submitted.  JavaScript numbers that hold milliseconds are
    [Z]; embedding components and similarities are exact rationals [Q]. *)

From Stdlib Require Import ZArith QArith String Ascii List Lia.
From stdpp Require Import base list strings gmap sorting.

Local Open Scope Z_scope.
Local Open Scope string_scope.
Local Open Scope list_scope.

(** ** JavaScript values used by the code *)

(** An [Error] object.  [status] is the optional numeric [status] property
    that HTTP client errors carry ([error?.status]). *)
Record JsError : Type := mkError {
  message : string;
  status : option Z
}.

Definition Error (msg : string) : JsError :=
  {| message := msg; status := None |}.

(** Outcome of awaiting a promise. *)
Inductive Res (A : Type) : Type :=
| Ok (value : A)
| Throw (error : JsError).
Arguments Ok {A} value.
Arguments Throw {A} error.

Definition is_ok {A} (r : Res A) : bool :=
  match r with Ok _ => true | Throw _ => false end.

(** [error?.status === 429] *)
Definition status_is_429 (error : JsError) : bool :=
  match status error with
  | Some s => Z.eqb s 429
  | None => false
  end.

(** [needle] occurs in [s]: [s.includes(needle)]. *)
Fixpoint includes (s needle : string) : bool :=
  if String.prefix needle s then true
  else match s with
       | EmptyString => false
       | String _ rest => includes rest needle
       end.

(** ** Rows of the database tables *)

(** The [Response] type of github.ts: one listed commit. *)
Record Response : Type := mkResponse {
  commitHash : string;
  commitMessage : string;
  commitAuthorName : string;
  commitAuthorAvatar : string;
  commitDate : string
}.

Record Project : Type := mkProject {
  project_id : string;
  githubUrl : string
}.

(** A row of the [Commit] table, as written by [db.commit.create]. *)
Record CommitRow : Type := mkCommitRow {
  c_projectId : string;
  c_commitHash : string;
  c_commitMessage : string;
  c_commitAuthorName : string;
  c_commitAuthorAvatar : string;
  c_commitDate : string;
  c_summary : string
}.

(** A row of the [SourceCodeEmbedding] table.  [e_summaryEmbedding] is the
    nullable vector column that only the raw UPDATE writes. *)
Record EmbeddingRow : Type := mkEmbeddingRow {
  e_id : nat;
  e_summary : string;
  e_sourceCode : string;
  e_fileName : string;
  e_projectId : string;
  e_summaryEmbedding : option (list Q)
}.

Record Db : Type := mkDb {
  projects : list Project;
  commits : list CommitRow;
  sourceCodeEmbeddings : list EmbeddingRow;
  next_id : nat
}.

(** A langchain [Document]: [pageContent] and [metadata.source]. *)
Record Document : Type := mkDocument {
  pageContent : string;
  source : string
}.

(** The async iterable returned by [generateContentStream]: the chunks it
    yields and how the iteration ends ([None]: exhausted, [Some e]: the
    iterator throws [e] after the last chunk). *)
Record TextStream : Type := mkTextStream {
  chunks : list string;
  failure : option JsError
}.

(** ** Effects *)

Inductive Event : Type :=
| EvSleep (ms : Z)
| EvHttpGet (url : string)
| EvSummarizeCommit (diff : string)
| EvListCommits (url : string)
| EvLoadRepo (url : string)
| EvGenerateContent (parts : list string)
| EvEmbedContent (text : string)
| EvGenerateContentStream (prompt : string).

Record World (X : Type) : Type := mkWorld {
  store : Db;
  timeline : list Event;
  ext : X
}.
Arguments mkWorld {X} store timeline ext.
Arguments store {X} w.
Arguments timeline {X} w.
Arguments ext {X} w.

(** The remote services and the storage layer, as state transformers on the
    state [X] of the outside world.  The fault fields say whether a storage
    statement fails when it is issued. *)
Record Capabilities (X : Type) : Type := mkCapabilities {
  (* octokit.rest.repos.listCommits with the url split, the sort by author
     date and the field mapping of getCommitHashes *)
  listRecentCommits : string -> X -> Res (list Response) * X;
  (* axios.get(url, ...).data *)
  axiosGet : string -> X -> Res string * X;
  (* aiSummarizeCommit of gemini.ts *)
  aiSummarizeCommit : string -> X -> Res string * X;
  (* db.commit.create *)
  commitCreateFault : CommitRow -> X -> option JsError * X;
  (* new GithubRepoLoader(url, ...).load() *)
  loaderLoad : string -> option string -> X -> Res (list Document) * X;
  (* model.generateContent(parts).response.text() *)
  generateContent : list string -> X -> Res string * X;
  (* model.embedContent(text).embedding.values *)
  embedContent : string -> X -> Res (list Q) * X;
  (* db.sourceCodeEmbedding.create, by file name *)
  embeddingCreateFault : string -> X -> option JsError * X;
  (* db.$executeRaw UPDATE, by row id *)
  executeRawFault : nat -> X -> option JsError * X;
  (* db.$queryRaw SELECT, by project id *)
  queryRawFault : string -> X -> option JsError * X;
  (* the operators that the database defines on vectors, by their symbol
     in a statement *)
  vectorOperator : string -> option (list Q -> list Q -> Q);
  (* model.generateContentStream(prompt).stream *)
  generateContentStream : string -> X -> Res TextStream * X
}.
Arguments listRecentCommits {X} c.
Arguments axiosGet {X} c.
Arguments aiSummarizeCommit {X} c.
Arguments commitCreateFault {X} c.
Arguments loaderLoad {X} c.
Arguments generateContent {X} c.
Arguments embedContent {X} c.
Arguments embeddingCreateFault {X} c.
Arguments executeRawFault {X} c.
Arguments queryRawFault {X} c.
Arguments vectorOperator {X} c.
Arguments generateContentStream {X} c.

(** ** The promise monad *)

Definition Async (X A : Type) : Type := World X -> Res A * World X.

Definition ret {X A} (a : A) : Async X A := fun w => (Ok a, w).

Definition throw {X A} (e : JsError) : Async X A := fun w => (Throw e, w).

Definition bind {X A B} (m : Async X A) (k : A -> Async X B) : Async X B :=
  fun w =>
    match m w with
    | (Ok a, w1) => k a w1
    | (Throw e, w1) => (Throw e, w1)
    end.

(** [try { m } catch (error) { handler(error) }] *)
Definition try_catch {X A} (m : Async X A) (handler : JsError -> Async X A)
  : Async X A :=
  fun w =>
    match m w with
    | (Ok a, w1) => (Ok a, w1)
    | (Throw e, w1) => handler e w1
    end.

Declare Scope async_scope.
Delimit Scope async_scope with async.
Notation "x <- m ;; k" := (bind m (fun x => k))
  (at level 100, m at next level, right associativity) : async_scope.
Notation "m ;;; k" := (bind m (fun _ => k))
  (at level 100, right associativity) : async_scope.

(** [await new Promise((resolve) => setTimeout(resolve, ms))] *)
Definition setTimeout {X} (ms : Z) (w : World X) : World X :=
  mkWorld (store w) (timeline w ++ [EvSleep ms]) (ext w).

Definition sleep {X} (ms : Z) : Async X unit :=
  fun w => (Ok tt, setTimeout ms w).

(** A call to a remote service: the call is recorded on the timeline and the
    service answers from, and moves, the outside state. *)
Definition call {X A} (ev : Event) (service : X -> Res A * X) : Async X A :=
  fun w =>
    let (r, x1) := service (ext w) in
    (r, mkWorld (store w) (timeline w ++ [ev]) x1).

(** A storage statement that may fail. *)
Definition fault {X} (oracle : X -> option JsError * X) : Async X unit :=
  fun w =>
    let (o, x1) := oracle (ext w) in
    let w1 := mkWorld (store w) (timeline w) x1 in
    match o with
    | Some e => (Throw e, w1)
    | None => (Ok tt, w1)
    end.

Definition get_store {X} : Async X Db := fun w => (Ok (store w), w).

Definition put_store {X} (d : Db) : Async X unit :=
  fun w => (Ok tt, mkWorld d (timeline w) (ext w)).

(** ** Retry/backoff executor: [withRetry] (github.ts) *)

Definition RETRY_DELAYS : list Z := [1000; 2000; 4000; 8000].
Definition MAX_CONCURRENT : nat := 5.

(** [withRetry(fn, retryCount)].  The recursion of the source is bounded by
    the number of delays left, which [withRetry] supplies as [fuel]. *)
Fixpoint withRetry_loop {X T} (fuel : nat) (fn : Async X T) (retryCount : nat)
  (w : World X) : Res T * World X :=
  match fn w with
  | (Ok v, w1) => (Ok v, w1)
  | (Throw error, w1) =>
      if status_is_429 error && bool_decide (retryCount < length RETRY_DELAYS)%nat
      then
        match fuel with
        | S fuel' =>
            let delay := nth retryCount RETRY_DELAYS 0 in
            withRetry_loop fuel' fn (retryCount + 1) (setTimeout delay w1)
        | O => (Throw error, w1)
        end
      else (Throw error, w1)
  end.

Definition withRetry {X T} (fn : Async X T) (retryCount : nat) : Async X T :=
  withRetry_loop (length RETRY_DELAYS - retryCount) fn retryCount.

(** [Promise.allSettled(tasks)]: every task runs; the outcomes are kept in
    submission order. *)
Fixpoint settle_all {X A} (tasks : list (Async X A)) (w : World X)
  : list (Res A) * World X :=
  match tasks with
  | [] => ([], w)
  | t :: ts =>
      let (r, w1) := t w in
      let (rs, w2) := settle_all ts w1 in
      (r :: rs, w2)
  end.

Definition Promise_allSettled {X A} (tasks : list (Async X A))
  : Async X (list (Res A)) :=
  fun w => let (rs, w1) := settle_all tasks w in (Ok rs, w1).

(** The values of the outcomes if all are fulfilled, the first rejection
    otherwise. *)
Fixpoint collect {A} (rs : list (Res A)) : Res (list A) :=
  match rs with
  | [] => Ok []
  | Ok a :: rest =>
      match collect rest with
      | Ok l => Ok (a :: l)
      | Throw e => Throw e
      end
  | Throw e :: _ => Throw e
  end.

(** [Promise.all(tasks)]: every task runs; the promise rejects when one of
    them does. *)
Definition Promise_all {X A} (tasks : list (Async X A)) : Async X (list A) :=
  fun w => let (rs, w1) := settle_all tasks w in (collect rs, w1).

(** [limit(fn)] of p-limit: the promise of the submitted operation.  The
    limiter only decides when [fn] starts. *)
Definition limit {X A} (fn : Async X A) : Async X A := fn.

(** [!s] for a string. *)
Definition falsy (s : string) : bool :=
  match s with
  | EmptyString => true
  | String _ _ => false
  end.

Section Pipelines.

Context {X : Type} (caps : Capabilities X).

(** ** Commit ingestion (github.ts) *)

Definition SUMMARY_ERROR : string := "Error generating summary".
Definition SUMMARY_MISSING : string := "No summary available".

(** [`${githubUrl}/commit/${commitHash}.diff`] *)
Definition diff_url (githubUrl commitHash : string) : string :=
  githubUrl +:+ "/commit/" +:+ commitHash +:+ ".diff".

(** The function that [summariesCommit] hands to [withRetry]. *)
Definition summariesCommit_body (githubUrl commitHash : string)
  : Async X string :=
  try_catch
    (let url := diff_url githubUrl commitHash in
     data <- call (EvHttpGet url) (axiosGet caps url) ;;
     if falsy data then throw (Error "No diff data received")
     else
       summary <- call (EvSummarizeCommit data) (aiSummarizeCommit caps data) ;;
       if falsy summary then ret SUMMARY_MISSING
       else ret summary)%async
    (fun _ => ret SUMMARY_ERROR).

Definition summariesCommit (githubUrl commitHash : string) : Async X string :=
  withRetry (summariesCommit_body githubUrl commitHash) 0.

Definition getCommitHashes (githubUrl : string) : Async X (list Response) :=
  withRetry
    (call (EvListCommits githubUrl) (listRecentCommits caps githubUrl)) 0.

Definition fetchProjectGithubUrl (projectId : string) : Async X string :=
  (d <- get_store ;;
   match List.find (fun p => String.eqb (project_id p) projectId) (projects d) with
   | None => throw (Error ("Project with ID " +:+ projectId +:+ " not found."))
   | Some project => ret (githubUrl project)
   end)%async.

(** [db.commit.findMany({ where: { projectId }, select: { commitHash } })] *)
Definition findMany_commitHash (projectId : string) (d : Db) : list string :=
  map c_commitHash (filter (fun c => c_projectId c = projectId) (commits d)).

Definition filterUnprocessedCommits (projectId : string)
  (commitHashes : list Response) : Async X (list Response) :=
  (d <- get_store ;;
   let processedCommits := findMany_commitHash projectId d in
   let processedHashes : gset string := list_to_set processedCommits in
   ret (filter (fun commit => commitHash commit ∉ processedHashes) commitHashes))%async.

(** [{ ...commit, summary }] *)
Record Summarized : Type := mkSummarized {
  s_commit : Response;
  s_summary : string
}.

(** The task submitted to the limiter for one commit. *)
Definition process_commit (githubUrl : string) (commit : Response)
  : Async X (option Summarized) :=
  try_catch
    (summary <- summariesCommit githubUrl (commitHash commit) ;;
     ret (Some (mkSummarized commit summary)))%async
    (fun _ => ret None).

(** [db.commit.create({ data })] *)
Definition db_commit_create (data : CommitRow) : Async X CommitRow :=
  (fault (commitCreateFault caps data) ;;;
   d <- get_store ;;
   put_store (mkDb (projects d) (commits d ++ [data])
                   (sourceCodeEmbeddings d) (next_id d)) ;;;
   ret data)%async.

(** One iteration of [for (const summary of batch)].  [commitDate] is stored
    as the listing gives it; a date that the store refuses is a fault of
    [db.commit.create]. *)
Definition store_commit (projectId : string) (summary : Summarized)
  (results : list CommitRow) : Async X (list CommitRow) :=
  try_catch
    (commit <- db_commit_create
       (mkCommitRow projectId
          (commitHash (s_commit summary))
          (commitMessage (s_commit summary))
          (commitAuthorName (s_commit summary))
          (commitAuthorAvatar (s_commit summary))
          (commitDate (s_commit summary))
          (s_summary summary)) ;;
     ret (results ++ [commit]))%async
    (fun _ => ret results).

Fixpoint store_batch (projectId : string) (batch : list Summarized)
  (results : list CommitRow) : Async X (list CommitRow) :=
  match batch with
  | [] => ret results
  | summary :: rest =>
      (results1 <- store_commit projectId summary results ;;
       store_batch projectId rest results1)%async
  end.

Definition batchSize : nat := 3.

(** [for (let i = 0; i < validSummaries.length; i += batchSize)] from the
    index [i] on; every iteration advances [i], so [length validSummaries]
    iterations are enough fuel. *)
Fixpoint batch_loop (fuel : nat) (projectId : string)
  (validSummaries : list Summarized) (i : nat) (results : list CommitRow)
  : Async X (list CommitRow) :=
  match fuel with
  | O => ret results
  | S fuel' =>
      if bool_decide (i < length validSummaries)%nat then
        (let batch := take batchSize (drop i validSummaries) in
         results1 <- store_batch projectId batch results ;;
         sleep 500 ;;;
         batch_loop fuel' projectId validSummaries (i + batchSize) results1)%async
      else ret results
  end.

(** The fan-out of [pollCommits]: one limited task per unprocessed commit. *)
Definition summarize_all (githubUrl : string) (unprocessedCommits : list Response)
  : Async X (list (option Summarized)) :=
  Promise_all
    (map (fun commit => limit (process_commit githubUrl commit))
         unprocessedCommits).

Definition pollCommits (projectId : string) : Async X (list CommitRow) :=
  try_catch
    (githubUrl <- fetchProjectGithubUrl projectId ;;
     commitHashes <- getCommitHashes githubUrl ;;
     unprocessedCommits <- filterUnprocessedCommits projectId commitHashes ;;
     if bool_decide (length unprocessedCommits = 0%nat) then ret []
     else
       summaryResponses <- summarize_all githubUrl unprocessedCommits ;;
       let validSummaries := omap id summaryResponses in
       batch_loop (length validSummaries) projectId validSummaries 0 [])%async
    (fun error => throw error).


(** ** Repository snapshot loader (github.ts) *)

Definition RATE_LIMIT_TEXT : string := "rate limit exceeded".

(** [Math.min(1000 * Math.pow(2, attempt), 10000)] *)
Definition waitTime (attempt : nat) : Z :=
  Z.min (1000 * 2 ^ Z.of_nat attempt) 10000.

(** The local [retry] of [loadGithubRepo]: the [for] loop from [attempt] on.
    [None] is the [undefined] the function returns when the loop runs out. *)
Fixpoint retry_loop {A} (fuel : nat) (fn : Async X A) (maxAttempts attempt : nat)
  (w : World X) : Res (option A) * World X :=
  match fuel with
  | O => (Ok None, w)
  | S fuel' =>
      if bool_decide (attempt <= maxAttempts)%nat then
        match fn w with
        | (Ok v, w1) => (Ok (Some v), w1)
        | (Throw error, w1) =>
            if bool_decide (attempt = maxAttempts) then (Throw error, w1)
            else if includes (message error) RATE_LIMIT_TEXT then
              retry_loop fuel' fn maxAttempts (attempt + 1)
                (setTimeout (waitTime attempt) w1)
            else (Throw error, w1)
        end
      else (Ok None, w)
  end.

Definition retry {A} (fn : Async X A) (maxAttempts : nat) : Async X (option A) :=
  retry_loop maxAttempts fn maxAttempts 1.

Definition TOKEN_ADVICE : string :=
  "GitHub API rate limit exceeded. To increase your rate limit, please provide a GitHub token. "
  +:+ "You can create one at https://github.com/settings/tokens".

(** The function that [loadGithubRepo] hands to [retry]; the loader is
    constructed once, without any request. *)
Definition load_docs (githubUrl : string) (githubToken : option string)
  : Async X (list Document) :=
  (docs <- call (EvLoadRepo githubUrl) (loaderLoad caps githubUrl githubToken) ;;
   ret docs)%async.

Definition loadGithubRepo (githubUrl : string) (githubToken : option string)
  : Async X (option (list Document)) :=
  try_catch
    (retry (load_docs githubUrl githubToken) 3)
    (fun error =>
       if includes (message error) RATE_LIMIT_TEXT
       then throw (Error TOKEN_ADVICE)
       else throw error).

(** ** File embedding pipeline (gemini.ts, github.ts) *)

Definition nl : string := String "010"%char EmptyString.

Definition summary_prompt (doc : Document) (code : string) : list string :=
  [ "You are an intelligent senior software engineer who specialized in onboarding junior software engineers onto projects";
    "You are onboarding a junior software engineer and explaining to them the purpose of the "
    +:+ source doc +:+ " file" +:+ nl
    +:+ "     Here is the code" +:+ nl
    +:+ "     ---" +:+ nl
    +:+ "     " +:+ code +:+ nl
    +:+ "     ---" +:+ nl
    +:+ "     Give a summary no more than 100 words of the code above" ].

Definition summariseCode (doc : Document) : Async X string :=
  try_catch
    (let code := String.substring 0 (Z.to_nat 10000) (pageContent doc) in
     let parts := summary_prompt doc code in
     text <- call (EvGenerateContent parts) (generateContent caps parts) ;;
     ret text)%async
    (fun _ => ret "").

Definition generateEmbedding (summary : string) : Async X (list Q) :=
  call (EvEmbedContent summary) (embedContent caps summary).

(** The object built for one document by [generateEmbeddings]. *)
Record Embedded : Type := mkEmbedded {
  summary : string;
  embedding : list Q;
  sourceCode : string;
  fileName : string
}.

(** The callback of [docs.map] in [generateEmbeddings]; the JSON round trip
    of [pageContent] gives the string back. *)
Definition embed_document (doc : Document) : Async X Embedded :=
  (summary <- summariseCode doc ;;
   embedding <- generateEmbedding summary ;;
   ret (mkEmbedded summary embedding (pageContent doc) (source doc)))%async.

Definition generateEmbeddings (docs : list Document) : Async X (list Embedded) :=
  Promise_all (map embed_document docs).

(** [!embedding] for an element of [allEmbeddings]: an object is truthy. *)
Definition not_object (e : Embedded) : bool := false.

(** [db.sourceCodeEmbedding.create({ data })]: the new row has no vector. *)
Definition db_sourceCodeEmbedding_create (summary sourceCode fileName projectId : string)
  : Async X EmbeddingRow :=
  (fault (embeddingCreateFault caps fileName) ;;;
   d <- get_store ;;
   let row := mkEmbeddingRow (next_id d) summary sourceCode fileName projectId None in
   put_store (mkDb (projects d) (commits d)
                   (sourceCodeEmbeddings d ++ [row]) (S (next_id d))) ;;;
   ret row)%async.

Definition set_summaryEmbedding (id : nat) (v : list Q) (row : EmbeddingRow)
  : EmbeddingRow :=
  if Nat.eqb (e_id row) id
  then mkEmbeddingRow (e_id row) (e_summary row) (e_sourceCode row)
         (e_fileName row) (e_projectId row) (Some v)
  else row.

(** [UPDATE "SourceCodeEmbedding" SET "summaryEmbedding" = v WHERE "id" = id] *)
Definition db_update_summaryEmbedding (v : list Q) (id : nat) : Async X unit :=
  (fault (executeRawFault caps id) ;;;
   d <- get_store ;;
   put_store (mkDb (projects d) (commits d)
                   (map (set_summaryEmbedding id v) (sourceCodeEmbeddings d))
                   (next_id d)))%async.

(** The callback of [allEmbeddings.map] in [indexGithubRepo]. *)
Definition persist_embedding (projectId : string) (embedded : Embedded)
  : Async X unit :=
  if not_object embedded then ret tt
  else
    (sourceCodeEmbedding <- db_sourceCodeEmbedding_create
         (summary embedded) (sourceCode embedded) (fileName embedded) projectId ;;
     db_update_summaryEmbedding (embedding embedded) (e_id sourceCodeEmbedding))%async.

Definition indexGithubRepo (projectId githubUrl : string)
  (githubToken : option string) : Async X unit :=
  (docs <- loadGithubRepo githubUrl githubToken ;;
   match docs with
   | None => throw (Error "Cannot read properties of undefined (reading 'map')")
   | Some docs =>
       allEmbeddings <- generateEmbeddings docs ;;
       Promise_allSettled (map (persist_embedding projectId) allEmbeddings) ;;;
       ret tt
   end)%async.

(** ** Vector retrieval (actions.ts) *)

Record SourceCodeResult : Type := mkSourceCodeResult {
  r_fileName : string;
  r_sourceCode : string;
  r_summary : string;
  r_similarity : Q
}.

Definition SIMILARITY_THRESHOLD : Q := 1 # 2.
Definition MAX_RESULTS : nat := 10.

(** [x > y] *)
Definition Qgtb (x y : Q) : bool := negb (Qle_bool x y).

(** The operator that the statement of [performVectorSearch] puts between
    the stored vector and the query vector. *)
Definition DISTANCE_OPERATOR : string := "<==>".

(** [1 - ("summaryEmbedding" <==> q)] with the operator resolved to
    [distance]; NULL when the column is NULL. *)
Definition similarity (distance : list Q -> list Q -> Q) (queryVector : list Q)
  (row : EmbeddingRow) : option Q :=
  match e_summaryEmbedding row with
  | Some v => Some (1 - distance v queryVector)%Q
  | None => None
  end.

(** The WHERE clause: a row is kept when the condition is true; the kept row
    travels with its similarity. *)
Definition where_clause (distance : list Q -> list Q -> Q)
  (queryVector : list Q) (projectId : string)
  (row : EmbeddingRow) : option (EmbeddingRow * Q) :=
  match similarity distance queryVector row with
  | Some s =>
      if Qgtb s SIMILARITY_THRESHOLD && String.eqb (e_projectId row) projectId
      then Some (row, s)
      else None
  | None => None
  end.

Fixpoint insert_desc (x : EmbeddingRow * Q) (l : list (EmbeddingRow * Q))
  : list (EmbeddingRow * Q) :=
  match l with
  | [] => [x]
  | y :: rest =>
      if Qgtb (snd y) (snd x) then y :: insert_desc x rest
      else x :: y :: rest
  end.

(** ORDER BY similarity DESC (rows of equal similarity keep table order). *)
Definition order_by_similarity_desc (l : list (EmbeddingRow * Q))
  : list (EmbeddingRow * Q) :=
  foldr insert_desc [] l.

(** The rows the SELECT statement picks, in the order it returns them. *)
Definition select_rows (distance : list Q -> list Q -> Q)
  (queryVector : list Q) (projectId : string) (d : Db)
  : list (EmbeddingRow * Q) :=
  take MAX_RESULTS
    (order_by_similarity_desc
       (omap (where_clause distance queryVector projectId)
             (sourceCodeEmbeddings d))).

(** The selected columns. *)
Definition to_result (p : EmbeddingRow * Q) : SourceCodeResult :=
  mkSourceCodeResult (e_fileName (fst p)) (e_sourceCode (fst p))
    (e_summary (fst p)) (snd p).

(** [db.$queryRaw`SELECT ...`]: the database resolves the operators of a
    statement before it reads any row, and refuses the statement when it
    defines no operator of that symbol on vectors. *)
Definition queryRaw_select (queryVector : list Q) (projectId : string)
  : Async X (list SourceCodeResult) :=
  (fault (queryRawFault caps projectId) ;;;
   match vectorOperator caps DISTANCE_OPERATOR with
   | None =>
       throw (Error ("operator does not exist: vector " +:+ DISTANCE_OPERATOR
                       +:+ " vector"))
   | Some distance =>
       d <- get_store ;;
       ret (map to_result (select_rows distance queryVector projectId d))
   end)%async.

Definition performVectorSearch (queryVector : list Q) (projectId : string)
  : Async X (list SourceCodeResult) :=
  try_catch
    (queryRaw_select queryVector projectId)
    (fun _ => throw (Error "Failed to search codebase")).

(** ** Question answering (actions.ts) *)

Definition dq : string := String "034"%char EmptyString.

Definition formatContext (results : list SourceCodeResult) : string :=
  String.concat ""
    (map (fun doc =>
            "source: " +:+ r_fileName doc +:+ nl
            +:+ "code content: " +:+ r_sourceCode doc +:+ nl
            +:+ "summary of file: " +:+ r_summary doc +:+ nl +:+ nl)
         results).

Definition generatePrompt (context question : string) : string :=
  nl
  +:+ "    You are an AI code assistant who answers questions about the codebase. Your target audience is a technical intern." +:+ nl
  +:+ "    You are a powerful, human-like artificial intelligence with expert knowledge in coding." +:+ nl
  +:+ "    You are helpful, articulate, and provide detailed technical explanations." +:+ nl
  +:+ nl
  +:+ "    When answering questions about code or specific files, provide detailed, step-by-step instructions." +:+ nl
  +:+ nl
  +:+ "    START CONTEXT BLOCK" +:+ nl
  +:+ "    " +:+ context +:+ nl
  +:+ "    END CONTEXT BLOCK" +:+ nl
  +:+ nl
  +:+ "    START QUESTION" +:+ nl
  +:+ "    " +:+ question +:+ nl
  +:+ "    END OF QUESTION" +:+ nl
  +:+ nl
  +:+ "    Guidelines:" +:+ nl
  +:+ "    - Only use information from the provided context" +:+ nl
  +:+ "    - If the context doesn't contain the answer, respond with " +:+ dq
  +:+ "I apologize, but I don't have enough information to answer this question" +:+ dq +:+ nl
  +:+ "    - Do not invent or assume information not present in the context" +:+ nl
  +:+ "    - Use markdown syntax, including code snippets where appropriate" +:+ nl
  +:+ "    - Provide detailed answers that leave no room for ambiguity" +:+ nl
  +:+ "    ".

Definition streamText (prompt : string) : Async X TextStream :=
  try_catch
    (result <- call (EvGenerateContentStream prompt)
                 (generateContentStream caps prompt) ;;
     ret result)%async
    (fun _ => throw (Error "Failed to generate response")).

(** What a streamable value delivers to its reader, in order. *)
Inductive StreamEvent : Type :=
| SUpdate (delta : string)
| SDone
| SError (error : JsError).

Definition Streamable : Type := list StreamEvent.

Definition createStreamableValue : Streamable := [].
Definition stream_update (delta : string) (s : Streamable) : Streamable :=
  s ++ [SUpdate delta].
Definition stream_done (s : Streamable) : Streamable := s ++ [SDone].
Definition stream_error (error : JsError) (s : Streamable) : Streamable :=
  s ++ [SError error].

(** [for await (const delta of textStream) { stream.update(delta); }] *)
Definition for_await_update (textStream : TextStream) (s : Streamable)
  : Res unit * Streamable :=
  let s1 := foldl (fun acc delta => stream_update delta acc) s (chunks textStream) in
  match failure textStream with
  | None => (Ok tt, s1)
  | Some e => (Throw e, s1)
  end.

(** The task [askQuestion] starts without awaiting it. *)
Definition stream_answer (prompt : string) (s : Streamable) (w : World X)
  : Streamable * World X :=
  match streamText prompt w with
  | (Ok textStream, w1) =>
      match for_await_update textStream s with
      | (Ok _, s1) => (stream_done s1, w1)
      | (Throw error, s1) => (stream_error error s1, w1)
      end
  | (Throw error, w1) => (stream_error error s, w1)
  end.

(** [output] is the sequence of events that the returned [stream.value]
    delivers to its reader. *)
Record QuestionResponse : Type := mkQuestionResponse {
  output : Streamable;
  filesReferences : list SourceCodeResult
}.

(** When the embedding or the search fails, the outer [catch] closes the
    stream with the error and rethrows: the caller gets the rejection and no
    stream. *)
Definition askQuestion (question projectId : string) : Async X QuestionResponse :=
  fun w =>
    let stream := createStreamableValue in
    match (queryVector <- generateEmbedding question ;;
           performVectorSearch queryVector projectId)%async w with
    | (Ok searchResults, w1) =>
        let context := formatContext searchResults in
        let prompt := generatePrompt context question in
        let (out, w2) := stream_answer prompt stream w1 in
        (Ok (mkQuestionResponse out searchResults), w2)
    | (Throw error, w1) => (Throw error, w1)
    end.

End Pipelines.

(** ** Functions used to state the theorems *)

(** The straight-line schedule "attempt, wait, attempt, ..., attempt" with
    one wait per element of [waits]: the outcomes of the attempts in order
    and the world after the last one. *)
Fixpoint attempts {X T} (fn : Async X T) (waits : list Z) (w : World X)
  : list (Res T) * World X :=
  let (r, w1) := fn w in
  match waits with
  | [] => ([r], w1)
  | d :: ds =>
      let (rs, w2) := attempts fn ds (setTimeout d w1) in
      (r :: rs, w2)
  end.

(** A failure that [withRetry] retries. *)
Definition rate_limited_failure {T} (r : Res T) : Prop :=
  match r with
  | Ok _ => False
  | Throw e => status_is_429 e = true
  end.

(** What [summariesCommit] makes of the answers of the two services: the
    answer to the diff request and the answer the summarizer gives for a
    diff. *)
Definition summary_of (fetched : Res string) (summarized : string -> Res string)
  : string :=
  match fetched with
  | Throw _ => "Error generating summary"
  | Ok data =>
      if falsy data then "Error generating summary"
      else match summarized data with
           | Throw _ => "Error generating summary"
           | Ok s => if falsy s then "No summary available" else s
           end
  end.

(** The row [pollCommits] creates for a summarized commit. *)
Definition row_of (projectId : string) (v : Summarized) : CommitRow :=
  mkCommitRow projectId
    (commitHash (s_commit v)) (commitMessage (s_commit v))
    (commitAuthorName (s_commit v)) (commitAuthorAvatar (s_commit v))
    (commitDate (s_commit v)) (s_summary v).

(** The store with [rows] appended to the commit table. *)
Definition add_commits (d : Db) (rows : list CommitRow) : Db :=
  mkDb (projects d) (commits d ++ rows) (sourceCodeEmbeddings d) (next_id d).

(** The listed commits whose hash is not stored for the project. *)
Definition unprocessed (projectId : string) (d : Db) (listing : list Response)
  : list Response :=
  filter (fun c => commitHash c ∉ findMany_commitHash projectId d) listing.

(** The rows that get stored when [db.commit.create] is called for each
    summarized commit in turn, and the outside state afterwards. *)
Fixpoint stored_rows {X} (caps : Capabilities X) (projectId : string)
  (vs : list Summarized) (x : X) : list CommitRow * X :=
  match vs with
  | [] => ([], x)
  | v :: rest =>
      let (o, x1) := commitCreateFault caps (row_of projectId v) x in
      let (rows, x2) := stored_rows caps projectId rest x1 in
      (match o with
       | None => row_of projectId v :: rows
       | Some _ => rows
       end, x2)
  end.

(** The waits on a timeline, in order. *)
Definition waits_of (tl : list Event) : list Z :=
  omap (fun ev => match ev with EvSleep ms => Some ms | _ => None end) tl.

(** The urls of the diff requests on a timeline, in order. *)
Definition gets_of (tl : list Event) : list string :=
  omap (fun ev => match ev with EvHttpGet url => Some url | _ => None end) tl.

(** A failure that the [retry] of [loadGithubRepo] retries. *)
Definition rate_limit_message {T} (r : Res T) : Prop :=
  match r with
  | Ok _ => False
  | Throw e => includes (message e) "rate limit exceeded" = true
  end.

#[global] Instance rate_limit_message_dec {T} (r : Res T) :
  Decision (rate_limit_message r).
Proof. destruct r; cbn; apply _. Defined.

(** What [loadGithubRepo] makes of the outcome of its last attempt. *)
Definition surfaced (r : Res (list Document)) : Res (option (list Document)) :=
  match r with
  | Ok docs => Ok (Some docs)
  | Throw e =>
      if includes (message e) "rate limit exceeded"
      then Throw (Error TOKEN_ADVICE)
      else Throw e
  end.

(** Rows of the table all have an id below the next one. *)
Definition ids_fresh (d : Db) : Prop :=
  Forall (fun row => (e_id row < next_id d)%nat) (sourceCodeEmbeddings d).

(** The row [db.sourceCodeEmbedding.create] inserts for an embedded file,
    and that row once the UPDATE has written the vector. *)
Definition created_row (id : nat) (projectId : string) (e : Embedded)
  : EmbeddingRow :=
  mkEmbeddingRow id (summary e) (sourceCode e) (fileName e) projectId None.

Definition complete_row (id : nat) (projectId : string) (e : Embedded)
  : EmbeddingRow :=
  mkEmbeddingRow id (summary e) (sourceCode e) (fileName e) projectId
    (Some (embedding e)).

(** The store with [row] appended under the next id. *)
Definition add_embedding (d : Db) (row : EmbeddingRow) : Db :=
  mkDb (projects d) (commits d) (sourceCodeEmbeddings d ++ [row]) (S (next_id d)).

(** The operators that the pgvector extension defines between two vectors:
    Euclidean distance, negative inner product, cosine distance and taxicab
    distance. *)
Definition pgvector_operators : list string := ["<->"; "<#>"; "<=>"; "<+>"].

(** [a] ranks at least as high as [b]. *)
Definition ranks_above (a b : EmbeddingRow * Q) : Prop := (snd b <= snd a)%Q.

(** The terminal event [askQuestion] puts on the stream for an outcome of
    the streaming completion. *)
Definition terminal_event (r : Res TextStream) : StreamEvent :=
  match r with
  | Ok textStream =>
      match failure textStream with
      | None => SDone
      | Some e => SError e
      end
  | Throw _ => SError (Error "Failed to generate response")
  end.

(** The chunks the completion delivered before it ended. *)
Definition delivered (r : Res TextStream) : list string :=
  match r with
  | Ok textStream => chunks textStream
  | Throw _ => []
  end.

Definition is_terminal (ev : StreamEvent) : bool :=
  match ev with
  | SUpdate _ => false
  | SDone | SError _ => true
  end.

(** ** The concurrency limiter *)

Module Limiter.

(** Modelled from the spec: the limiter that [pLimit(MAX_CONCURRENT)]
    returns; github.ts only constructs it and submits operations to it.  A
    state has the operations waiting in submission order, the operations
    running, those that have settled, and the logs of submissions and of
    admissions. *)
Record State : Type := mkState {
  queue : list nat;
  running : list nat;
  finished : list nat;
  submitted : list nat;
  started : list nat
}.

Definition init : State := mkState [] [] [] [] [].

(** What happens to the limiter: an operation is submitted, or a running
    operation settles. *)
Inductive Input : Type :=
| Submit (op : nat)
| Settle (op : nat).

Fixpoint remove_first (op : nat) (l : list nat) : list nat :=
  match l with
  | [] => []
  | x :: rest => if Nat.eqb x op then rest else x :: remove_first op rest
  end.

(** Modelled from the spec: "admitted as slots free", the operation at the
    head of the queue starts when fewer than [n] are running. *)
Definition start_next (n : nat) (s : State) : State :=
  if bool_decide (length (running s) < n)%nat then
    match queue s with
    | [] => s
    | op :: rest =>
        mkState rest (running s ++ [op]) (finished s) (submitted s)
                (started s ++ [op])
    end
  else s.

(** Modelled from the spec: "excess submissions queue in submission order
    and are admitted as slots free". *)
Definition step (n : nat) (s : State) (i : Input) : State :=
  match i with
  | Submit op =>
      start_next n (mkState (queue s ++ [op]) (running s) (finished s)
                       (submitted s ++ [op]) (started s))
  | Settle op =>
      if bool_decide (op ∈ running s) then
        start_next n (mkState (queue s) (remove_first op (running s))
                         (finished s ++ [op]) (submitted s) (started s))
      else s
  end.

Definition run (n : nat) (inputs : list Input) : State :=
  foldl (step n) init inputs.





End Limiter.

(** ** Concrete environments used to run the definitions *)

(** The outside state counts the calls made so far. *)
Definition too_many_requests : JsError :=
  {| message := "Too Many Requests"; status := Some 429 |}.

Definition not_found : JsError :=
  {| message := "Not Found"; status := Some 404 |}.

Definition server_error : JsError :=
  {| message := "Internal Server Error"; status := Some 500 |}.

Definition rate_limit_error : JsError :=
  Error "API rate limit exceeded for this address".

Definition empty_db : Db := mkDb [] [] [] 0.

Definition world0 : World nat := mkWorld empty_db [] 0%nat.

(** A remote call that is always rate limited. *)
Definition always_limited : Async nat string :=
  call (EvHttpGet "https://api.github.com")
       (fun n => (Throw too_many_requests, S n)).

(** A remote call that is rate limited twice and then answers. *)
Definition limited_twice : Async nat string :=
  call (EvHttpGet "https://api.github.com")
       (fun n => (if (n <? 2)%nat then Throw too_many_requests else Ok "diff", S n)).

(** A remote call that is rate limited once and then fails for good. *)
Definition limited_then_missing : Async nat string :=
  call (EvHttpGet "https://api.github.com")
       (fun n => (if (n <? 1)%nat then Throw too_many_requests else Throw not_found, S n)).

Definition repo_url : string := "https://github.com/o/r".

Definition project_db : Db := mkDb [mkProject "p1" repo_url] [] [] 0.

Definition project_world : World nat := mkWorld project_db [] 0%nat.

Definition commit_a : Response :=
  mkResponse "a1" "first" "ann" "" "2024-01-05T00:00:00Z".
Definition commit_b : Response :=
  mkResponse "b2" "second" "bob" "" "2024-01-04T00:00:00Z".
Definition commit_c : Response :=
  mkResponse "c3" "third" "cy" "" "2024-01-03T00:00:00Z".
Definition commit_d : Response :=
  mkResponse "d4" "fourth" "dee" "" "2024-01-02T00:00:00Z".
Definition commit_e : Response :=
  mkResponse "e5" "fifth" "eli" "" "2024-01-01T00:00:00Z".

Definition five_commits : list Response :=
  [commit_a; commit_b; commit_c; commit_d; commit_e].

Definition doc_a : Document := mkDocument "export const a = 1;" "src/a.ts".
Definition doc_b : Document := mkDocument "export const b = 2;" "src/b.ts".

Definition three_chunks : list string := ["Hel"; "lo, "; " world"].

(** Every service answers, no storage statement fails and the database
    resolves every operator symbol to the distance that is 0 everywhere; the
    outside state is left alone. *)
Definition quiet : Capabilities nat :=
  mkCapabilities nat
    (fun _ n => (Ok five_commits, n))
    (fun url n => (Ok ("diff " +:+ url), n))
    (fun diff n => (Ok ("about " +:+ diff), n))
    (fun _ n => (None, n))
    (fun _ _ n => (Ok [doc_a; doc_b], n))
    (fun parts n => (Ok "exports a constant", n))
    (fun text n => (Ok [1%Q; 0%Q], n))
    (fun _ n => (None, n))
    (fun _ n => (None, n))
    (fun _ n => (None, n))
    (fun _ => Some (fun _ _ => 0%Q))
    (fun _ n => (Ok (mkTextStream three_chunks None), n)).

Definition set_listRecentCommits {X} (f : string -> X -> Res (list Response) * X)
  (c : Capabilities X) : Capabilities X :=
  mkCapabilities X f (axiosGet c) (aiSummarizeCommit c) (commitCreateFault c)
    (loaderLoad c) (generateContent c) (embedContent c) (embeddingCreateFault c)
    (executeRawFault c) (queryRawFault c) (vectorOperator c)
    (generateContentStream c).

Definition set_axiosGet {X} (f : string -> X -> Res string * X)
  (c : Capabilities X) : Capabilities X :=
  mkCapabilities X (listRecentCommits c) f (aiSummarizeCommit c)
    (commitCreateFault c) (loaderLoad c) (generateContent c) (embedContent c)
    (embeddingCreateFault c) (executeRawFault c) (queryRawFault c)
    (vectorOperator c) (generateContentStream c).

Definition set_aiSummarizeCommit {X} (f : string -> X -> Res string * X)
  (c : Capabilities X) : Capabilities X :=
  mkCapabilities X (listRecentCommits c) (axiosGet c) f (commitCreateFault c)
    (loaderLoad c) (generateContent c) (embedContent c) (embeddingCreateFault c)
    (executeRawFault c) (queryRawFault c) (vectorOperator c)
    (generateContentStream c).

Definition set_commitCreateFault {X} (f : CommitRow -> X -> option JsError * X)
  (c : Capabilities X) : Capabilities X :=
  mkCapabilities X (listRecentCommits c) (axiosGet c) (aiSummarizeCommit c) f
    (loaderLoad c) (generateContent c) (embedContent c) (embeddingCreateFault c)
    (executeRawFault c) (queryRawFault c) (vectorOperator c)
    (generateContentStream c).

Definition set_loaderLoad {X}
  (f : string -> option string -> X -> Res (list Document) * X)
  (c : Capabilities X) : Capabilities X :=
  mkCapabilities X (listRecentCommits c) (axiosGet c) (aiSummarizeCommit c)
    (commitCreateFault c) f (generateContent c) (embedContent c)
    (embeddingCreateFault c) (executeRawFault c) (queryRawFault c)
    (vectorOperator c) (generateContentStream c).

Definition set_generateContent {X} (f : list string -> X -> Res string * X)
  (c : Capabilities X) : Capabilities X :=
  mkCapabilities X (listRecentCommits c) (axiosGet c) (aiSummarizeCommit c)
    (commitCreateFault c) (loaderLoad c) f (embedContent c)
    (embeddingCreateFault c) (executeRawFault c) (queryRawFault c)
    (vectorOperator c) (generateContentStream c).

Definition set_embedContent {X} (f : string -> X -> Res (list Q) * X)
  (c : Capabilities X) : Capabilities X :=
  mkCapabilities X (listRecentCommits c) (axiosGet c) (aiSummarizeCommit c)
    (commitCreateFault c) (loaderLoad c) (generateContent c) f
    (embeddingCreateFault c) (executeRawFault c) (queryRawFault c)
    (vectorOperator c) (generateContentStream c).

Definition set_executeRawFault {X} (f : nat -> X -> option JsError * X)
  (c : Capabilities X) : Capabilities X :=
  mkCapabilities X (listRecentCommits c) (axiosGet c) (aiSummarizeCommit c)
    (commitCreateFault c) (loaderLoad c) (generateContent c) (embedContent c)
    (embeddingCreateFault c) f (queryRawFault c) (vectorOperator c)
    (generateContentStream c).

Definition set_vectorOperator {X}
  (f : string -> option (list Q -> list Q -> Q))
  (c : Capabilities X) : Capabilities X :=
  mkCapabilities X (listRecentCommits c) (axiosGet c) (aiSummarizeCommit c)
    (commitCreateFault c) (loaderLoad c) (generateContent c) (embedContent c)
    (embeddingCreateFault c) (executeRawFault c) (queryRawFault c) f
    (generateContentStream c).

Definition set_generateContentStream {X} (f : string -> X -> Res TextStream * X)
  (c : Capabilities X) : Capabilities X :=
  mkCapabilities X (listRecentCommits c) (axiosGet c) (aiSummarizeCommit c)
    (commitCreateFault c) (loaderLoad c) (generateContent c) (embedContent c)
    (embeddingCreateFault c) (executeRawFault c) (queryRawFault c)
    (vectorOperator c) f.

(** The diff request is rate limited on every call. *)
Definition diff_always_limited : Capabilities nat :=
  set_axiosGet (fun _ n => (Throw too_many_requests, S n)) quiet.

(** The summarizer fails for the diff of the third commit. *)
Definition third_summary_fails : Capabilities nat :=
  set_aiSummarizeCommit
    (fun diff n =>
       (if String.eqb diff ("diff " +:+ diff_url repo_url "c3")
        then Throw server_error
        else Ok ("about " +:+ diff), n))
    quiet.

(** The store rejects the first [db.commit.create] it receives and accepts
    the later ones. *)
Definition first_create_fails : Capabilities nat :=
  set_listRecentCommits (fun _ n => (Ok [commit_a], n))
    (set_commitCreateFault
       (fun _ n => (if (n =? 0)%nat then Some server_error else None, S n))
       quiet).

(** The loader is rate limited on every attempt. *)
Definition loader_always_limited : Capabilities nat :=
  set_loaderLoad (fun _ _ n => (Throw rate_limit_error, S n)) quiet.

(** The loader is rate limited once and then reports a missing repository. *)
Definition loader_limited_then_missing : Capabilities nat :=
  set_loaderLoad
    (fun _ _ n => (if (n =? 0)%nat then Throw rate_limit_error
                   else Throw not_found, S n))
    quiet.

(** The summarizer of files answers with the second part of its prompt,
    which names the file. *)
Definition naming_summaries : Capabilities nat :=
  set_generateContent
    (fun parts n => (Ok (String.concat "" (drop 1 parts)), n)) quiet.

(** The embedding service fails for the summary of [src/a.ts]. *)
Definition embedding_a_fails : Capabilities nat :=
  set_embedContent
    (fun text n =>
       (if includes text "src/a.ts" then Throw server_error
        else Ok [1%Q; 0%Q], n))
    naming_summaries.

(** The summarizer of files fails for [src/a.ts]. *)
Definition summary_a_fails : Capabilities nat :=
  set_generateContent
    (fun parts n =>
       (if includes (String.concat "" parts) "src/a.ts" then Throw server_error
        else Ok "b exports a constant", n))
    quiet.

(** The raw UPDATE fails for the row with id 0. *)
Definition update_0_fails : Capabilities nat :=
  set_executeRawFault
    (fun id n => (if (id =? 0)%nat then Some server_error else None, n))
    quiet.

Definition embedded_a : Embedded :=
  mkEmbedded "exports a constant" [1%Q; 0%Q] (pageContent doc_a) (source doc_a).
Definition embedded_b : Embedded :=
  mkEmbedded "exports a constant" [1%Q; 0%Q] (pageContent doc_b) (source doc_b).

(** Five stored files whose vectors hold their distance to the query, with
    similarities 0.9, 0.5, 0.3, 0.6 and 0.2; a sixth belongs to another
    project and a seventh has no vector yet. *)
Definition file_row (id : nat) (name project : string) (v : option (list Q))
  : EmbeddingRow :=
  mkEmbeddingRow id ("summary of " +:+ name) ("code of " +:+ name) name project v.

Definition five_files : Db :=
  mkDb [mkProject "p1" repo_url] []
    [ file_row 0 "E1" "p1" (Some [1 # 10]);
      file_row 1 "E2" "p1" (Some [5 # 10]);
      file_row 2 "E3" "p1" (Some [7 # 10]);
      file_row 3 "E4" "p1" (Some [4 # 10]);
      file_row 4 "E5" "p1" (Some [8 # 10]);
      file_row 5 "F1" "p2" (Some [0 # 10]);
      file_row 6 "E6" "p1" None ]
    7.

(** A database that resolves every operator symbol to the distance held in
    the first component of the stored vector. *)
Definition stored_distance : Capabilities nat :=
  set_vectorOperator (fun _ => Some (fun v _ => hd 0%Q v)) quiet.

(** A database with the operators of pgvector and no other: the same
    distance under each of the four symbols, and nothing under any other
    symbol. *)
Definition pgvector_only : Capabilities nat :=
  set_vectorOperator
    (fun symbol =>
       if bool_decide (symbol ∈ pgvector_operators)
       then Some (fun v _ => hd 0%Q v)
       else None)
    quiet.

(** The completion yields three chunks and then fails. *)
Definition stream_breaks : Capabilities nat :=
  set_generateContentStream
    (fun _ n => (Ok (mkTextStream three_chunks (Some server_error)), n))
    quiet.

(** Twenty operations are submitted, then the first two settle. *)
Definition twenty_submissions : list Limiter.Input :=
  map Limiter.Submit (seq 0 20).

(** ** Further code of the same files *)

(** *** The listing of commits ([getCommitHashes], github.ts) *)

(** [s.split(sep)] for a one-character separator. *)
Fixpoint split_on (sep : ascii) (s : string) : list string :=
  match s with
  | EmptyString => [EmptyString]
  | String c rest =>
      let parts := split_on sep rest in
      if Ascii.eqb c sep then EmptyString :: parts
      else match parts with
           | p :: ps => String c p :: ps
           | [] => [String c EmptyString]
           end
  end.

(** [const [owner, repo] = githubUrl.split("/").slice(-2)] with the check
    [!owner || !repo]: [None] stands for the "Invalid GitHub URL" branch. *)
Definition owner_and_repo (githubUrl : string) : option (string * string) :=
  let parts := split_on "/"%char githubUrl in
  match drop (length parts - 2) parts with
  | owner :: repo :: _ =>
      if falsy owner || falsy repo then None else Some (owner, repo)
  | _ => None
  end.

(** An element of the [data] that [octokit.rest.repos.listCommits] returns,
    with the fields the code reads; [None] is a missing field. *)
Record GhCommit : Type := mkGhCommit {
  sha : string;
  gh_message : option string;
  gh_author_name : option string;
  gh_avatar_url : option string;
  gh_author_date : option string
}.

(** [x ?? ""] *)
Definition or_empty (x : option string) : string :=
  match x with
  | Some s => s
  | None => ""
  end.

Definition to_response (commit : GhCommit) : Response :=
  mkResponse (sha commit) (or_empty (gh_message commit))
    (or_empty (gh_author_name commit)) (or_empty (gh_avatar_url commit))
    (or_empty (gh_author_date commit)).

Section Listing.

Context {X : Type}.

(** [new Date(s).getTime()] for the date strings of the listing. *)
Variable getTime : string -> Z.

(** [octokit.rest.repos.listCommits({ owner, repo, per_page: 10 }).data] *)
Variable listCommits : string -> string -> X -> Res (list GhCommit) * X.

(** [new Date(commit.commit.author?.date ?? 0).getTime()] *)
Definition author_time (commit : GhCommit) : Z :=
  match gh_author_date commit with
  | Some s => getTime s
  | None => 0
  end.

Fixpoint insert_newest (x : GhCommit) (l : list GhCommit) : list GhCommit :=
  match l with
  | [] => [x]
  | y :: rest =>
      if Z.ltb (author_time x) (author_time y) then y :: insert_newest x rest
      else x :: y :: rest
  end.

(** [data.sort((a, b) => time(b) - time(a))]: the sort is stable. *)
Definition sort_newest_first (data : list GhCommit) : list GhCommit :=
  foldr insert_newest [] data.

(** The function that [getCommitHashes] hands to [withRetry], written out. *)
Definition getCommitHashes_body (githubUrl : string) : Async X (list Response) :=
  match owner_and_repo githubUrl with
  | None => throw (Error "Invalid GitHub URL")
  | Some (owner, repo) =>
      (data <- call (EvListCommits githubUrl) (listCommits owner repo) ;;
       ret (map to_response (sort_newest_first data)))%async
  end.

Definition getCommitHashes_written_out (githubUrl : string)
  : Async X (list Response) :=
  withRetry (getCommitHashes_body githubUrl) 0.

End Listing.

(** *** The first revision of [filterUnprocessedCommits] (github.ts) *)

Definition filterUnprocessedCommits_v1 {X} (projectId : string)
  (commitHashes : list Response) : Async X (list Response) :=
  (d <- get_store ;;
   let processedCommits :=
     filter (fun c => c_projectId c = projectId) (commits d) in
   ret (List.filter
          (fun commit =>
             negb (existsb
                     (fun processedCommit =>
                        String.eqb (c_commitHash processedCommit) (commitHash commit))
                     processedCommits))
          commitHashes))%async.

(** *** The question card ([onSubmit], ask-question-card) *)

(** The state of the component. *)
Record CardState : Type := mkCardState {
  ui_open : bool;
  ui_question : string;
  ui_loading : bool;
  ui_filesReferences : list SourceCodeResult;
  ui_answer : string
}.

(** [for await (const delta of readStreamableValue(output))
       { if (delta) { setAnswer((ans) => ans + delta); } }]:
    the answer after the loop and how the loop ends ([None]: the stream has
    not ended). *)
Fixpoint read_deltas (events : Streamable) (answer : string)
  : option (Res unit) * string :=
  match events with
  | [] => (None, answer)
  | SUpdate delta :: rest =>
      read_deltas rest (if falsy delta then answer else answer +:+ delta)
  | SDone :: _ => (Some (Ok tt), answer)
  | SError e :: _ => (Some (Throw e), answer)
  end.

(** How a call of [onSubmit] ends. *)
Inductive Submitted : Type :=
| Alerted (msg : string)
| Returned
| Rejected (error : JsError)
| Waiting.

Definition onSubmit {X} (caps : Capabilities X) (project_id : option string)
  (s : CardState) (w : World X) : Submitted * CardState * World X :=
  match project_id with
  | None => (Alerted "No Project has been specified", s, w)
  | Some id =>
      if falsy id then (Alerted "No Project has been specified", s, w)
      else
        let s1 := mkCardState true (ui_question s) true
                    (ui_filesReferences s) (ui_answer s) in
        match askQuestion caps (ui_question s) id w with
        | (Throw e, w1) => (Rejected e, s1, w1)
        | (Ok response, w1) =>
            let refs := filesReferences response in
            match read_deltas (output response) (ui_answer s1) with
            | (Some (Ok _), answer) =>
                (Returned, mkCardState true (ui_question s) false refs answer, w1)
            | (Some (Throw e), answer) =>
                (Rejected e, mkCardState true (ui_question s) true refs answer, w1)
            | (None, answer) =>
                (Waiting, mkCardState true (ui_question s) true refs answer, w1)
            end
        end
  end.

(** *** The first revision of the commit pipeline (github.ts) *)

Section FirstRevision.

Context {X : Type} (caps : Capabilities X).

Variable getTime : string -> Z.

(** [octokit.rest.repos.listCommits({ owner, repo }).data] *)
Variable listCommits : string -> string -> X -> Res (list GhCommit) * X.

(** Whether [db.commit.createMany] fails for the rows it is given. *)
Variable createManyFault : list CommitRow -> X -> option JsError * X.

(** The first [getCommitHashes], written out: no retry, and the ten first
    commits of the sorted listing. *)
Definition getCommitHashes_v1_written_out (githubUrl : string)
  : Async X (list Response) :=
  match owner_and_repo githubUrl with
  | None => throw (Error "Invalid GitHub URL")
  | Some (owner, repo) =>
      (data <- call (EvListCommits githubUrl) (listCommits owner repo) ;;
       ret (map to_response (take 10 (sort_newest_first getTime data))))%async
  end.

(** The first [getCommitHashes] over the listing service of the
    capabilities. *)
Definition getCommitHashes_v1 (githubUrl : string) : Async X (list Response) :=
  call (EvListCommits githubUrl) (listRecentCommits caps githubUrl).

(** [(await aiSummarizeCommit(data)) || ""] *)
Definition summariesCommit_v1 (githubUrl commitHash : string) : Async X string :=
  (let url := diff_url githubUrl commitHash in
   data <- call (EvHttpGet url) (axiosGet caps url) ;;
   summary <- call (EvSummarizeCommit data) (aiSummarizeCommit caps data) ;;
   ret (if falsy summary then "" else summary))%async.

(** [db.commit.createMany({ data })]: one statement for all the rows; it
    returns their count. *)
Definition db_commit_createMany (data : list CommitRow) : Async X nat :=
  (fault (createManyFault data) ;;;
   d <- get_store ;;
   put_store (mkDb (projects d) (commits d ++ data)
                   (sourceCodeEmbeddings d) (next_id d)) ;;;
   ret (length data))%async.

(** [summaries] has one entry per unprocessed commit, so
    [unprocessedCommits[index]] is the commit at the summary's position. *)
Definition pollCommits_v1 (projectId : string) : Async X nat :=
  (githubUrl <- fetchProjectGithubUrl projectId ;;
   commitHashes <- getCommitHashes_v1 githubUrl ;;
   unprocessedCommits <- filterUnprocessedCommits_v1 projectId commitHashes ;;
   summaryResponses <-
     Promise_allSettled
       (map (fun commit => summariesCommit_v1 githubUrl (commitHash commit))
            unprocessedCommits) ;;
   let summaries :=
     map (fun response =>
            match response with
            | Ok value => value
            | Throw _ => ""
            end) summaryResponses in
   db_commit_createMany
     (zip_with
        (fun commit summary =>
           mkCommitRow projectId (commitHash commit) (commitMessage commit)
             (commitAuthorName commit) (commitAuthorAvatar commit)
             (commitDate commit) summary)
        unprocessedCommits summaries))%async.

End FirstRevision.

(** *** Functions used to state the further theorems *)

(** What the first [pollCommits] stores as the summary of a commit, from
    the answer to its diff request and the answer the summarizer gives for a
    diff: the summarizer's text, and the empty string when either fails. *)
Definition summary_v1_of (fetched : Res string) (summarized : string -> Res string)
  : string :=
  match fetched with
  | Throw _ => ""
  | Ok data =>
      match summarized data with
      | Throw _ => ""
      | Ok s => s
      end
  end.

#[global] Instance rate_limited_failure_dec {T} (r : Res T) :
  Decision (rate_limited_failure r).
Proof. destruct r; cbn; apply _. Defined.

(** The block [formatContext] writes for one retrieved file. *)
Definition context_block (doc : SourceCodeResult) : string :=
  "source: " +:+ r_fileName doc +:+ nl
  +:+ "code content: " +:+ r_sourceCode doc +:+ nl
  +:+ "summary of file: " +:+ r_summary doc +:+ nl +:+ nl.

(** The sum of the waits. *)
Definition total_wait (waits : list Z) : Z := foldr Z.add 0 waits.

Definition slash_free (s : string) : Prop :=
  Forall (fun c => c <> "/"%char) (list_ascii_of_string s).

(** [a] is listed no later than [b] when it is at least as recent. *)
Definition newer_or_same (getTime : string -> Z) (a b : GhCommit) : Prop :=
  author_time getTime b <= author_time getTime a.

(** The listing is rate limited on every call. *)
Definition listing_always_limited : Capabilities nat :=
  set_listRecentCommits (fun _ n => (Throw too_many_requests, S n)) quiet.

(** Three listed commits, the second without a date, and a listing service
    that returns them for [o/r]; dates are read as day numbers. *)
Definition gh_old : GhCommit :=
  mkGhCommit "s1" (Some "first") (Some "ann") None (Some "3").
Definition gh_undated : GhCommit :=
  mkGhCommit "s2" None None None None.
Definition gh_new : GhCommit :=
  mkGhCommit "s3" (Some "third") (Some "cy") (Some "https://a/cy.png") (Some "7").

Definition day_number (s : string) : Z :=
  if String.eqb s "3" then 3 else if String.eqb s "7" then 7 else 0.

Definition list_three (owner repo : string) (n : nat) : Res (list GhCommit) * nat :=
  if String.eqb owner "o" && String.eqb repo "r"
  then (Ok [gh_old; gh_undated; gh_new], S n)
  else (Throw not_found, S n).

(** The card with an earlier answer on display and a new question typed. *)
Definition card0 : CardState :=
  mkCardState false "where is the home page?" false [] "Earlier answer. ".

(** Twelve listed commits, dated by their day number, from day 1 to day 12;
    the listing service returns them oldest first. *)
Definition gh_day (d : string) : GhCommit :=
  mkGhCommit ("s" +:+ d) (Some ("work of day " +:+ d)) (Some "ann") None (Some d).

Definition twelve_days : list string :=
  ["1"; "2"; "3"; "4"; "5"; "6"; "7"; "8"; "9"; "10"; "11"; "12"].

Definition day_of (s : string) : Z :=
  match list_find (String.eqb s) twelve_days with
  | Some (i, _) => Z.of_nat (S i)
  | None => 0
  end.

Definition list_twelve (owner repo : string) (n : nat) : Res (list GhCommit) * nat :=
  (Ok (gh_day <$> twelve_days), S n).

(** [db.commit.createMany] never fails. *)
Definition createMany_ok (rows : list CommitRow) (n : nat) : option JsError * nat :=
  (None, n).

(** * Theorems *)

(** ** Retry/backoff executor *)

Section RetryFacts.

Context {X T : Type} (fn : Async X T).

Local Arguments RETRY_DELAYS : simpl never.

Lemma attempts_length (waits : list Z) (w : World X) :
  length (fst (attempts fn waits w)) = S (length waits).
Proof.
  revert w. induction waits as [|d ds IH]; intros w; simpl.
  - destruct (fn w); reflexivity.
  - destruct (fn w) as [r w1]. specialize (IH (setTimeout d w1)).
    destruct (attempts fn ds (setTimeout d w1)) as [rs w2]. simpl in *.
    now rewrite IH.
Qed.

(** The loop started at [retryCount] follows the straight-line schedule over
    the delays that are left, up to the first attempt that is not a
    rate-limited failure or to the end of the delays. *)
Lemma withRetry_loop_schedule (k : nat) :
  forall (retryCount fuel : nat) (w w' : World X) (rs : list (Res T)) (r : Res T),
    (retryCount + k <= length RETRY_DELAYS)%nat ->
    (k <= fuel)%nat ->
    attempts fn (take k (drop retryCount RETRY_DELAYS)) w = (rs, w') ->
    (forall i ri, (i < k)%nat -> rs !! i = Some ri -> rate_limited_failure ri) ->
    rs !! k = Some r ->
    (retryCount + k = length RETRY_DELAYS)%nat \/ ~ rate_limited_failure r ->
    withRetry_loop fuel fn retryCount w = (r, w').
Proof.
  induction k as [|k IH]; intros rc fuel w w' rs r Hrc Hfuel Hatt Hpre Hlast Hstop.
  - simpl in Hatt. destruct fuel; simpl; destruct (fn w) as [r0 w1];
      inversion Hatt; subst; simpl in Hlast; inversion Hlast; subst;
      destruct r as [v|e]; try reflexivity;
      (destruct Hstop as [Hend|Hnot];
       [ rewrite (bool_decide_eq_false_2 (rc < length RETRY_DELAYS)%nat) by lia;
         now rewrite andb_false_r
       | simpl in Hnot; destruct (status_is_429 e);
         [ exfalso; now apply Hnot | reflexivity ] ]).
  - assert (Hlt : (rc < length RETRY_DELAYS)%nat) by lia.
    destruct (lookup_lt_is_Some_2 RETRY_DELAYS rc Hlt) as [d Hd].
    rewrite (drop_S _ _ _ Hd), firstn_cons in Hatt. cbn [attempts] in Hatt.
    destruct fuel as [|fuel]; [lia|]. cbn [withRetry_loop].
    destruct (fn w) as [r0 w1].
    destruct (attempts fn (take k (drop (S rc) RETRY_DELAYS)) (setTimeout d w1))
      as [rs1 w2] eqn:Hrest.
    injection Hatt as <- <-.
    assert (H0 : rate_limited_failure r0) by (apply (Hpre 0%nat); [lia|reflexivity]).
    destruct r0 as [v|e]; [contradiction|]. simpl in H0. rewrite H0.
    rewrite bool_decide_eq_true_2 by exact Hlt. cbn [andb].
    rewrite (nth_lookup_Some _ _ _ _ Hd).
    replace (rc + 1)%nat with (S rc) by lia.
    apply (IH (S rc) fuel (setTimeout d w1) w2 rs1 r); try lia; try assumption.
    + intros i ri Hi Hri. apply (Hpre (S i)); [lia|exact Hri].
    + destruct Hstop as [Hend|Hnot]; [left; lia|right; exact Hnot].
Qed.

End RetryFacts.

(** C1. [withRetry(fn)]: when every attempt is rate limited (status 429) the
    executor makes five attempts, waits 1000, 2000, 4000 and 8000 ms between
    them and hands back the outcome of the fifth; in any run, the attempt
    that follows [k <= 4] rate-limited attempts and the first [k] waits ends
    the run with its own outcome and the world it left when it succeeds,
    fails with any other error, or is the fifth. *)
Theorem withRetry_backoff {X T : Type} (fn : Async X T) (w : World X) :
  ((forall w0, rate_limited_failure (fst (fn w0))) ->
   withRetry fn 0 w =
     (let w1 := snd (fn w) in
      let w2 := snd (fn (setTimeout 1000 w1)) in
      let w3 := snd (fn (setTimeout 2000 w2)) in
      let w4 := snd (fn (setTimeout 4000 w3)) in
      fn (setTimeout 8000 w4)) /\
   rate_limited_failure (fst (withRetry fn 0 w)))
  /\
  (forall (k : nat) (rs : list (Res T)) (w' : World X) (r : Res T),
     (k <= 4)%nat ->
     attempts fn (take k RETRY_DELAYS) w = (rs, w') ->
     (forall i ri, (i < k)%nat -> rs !! i = Some ri -> rate_limited_failure ri) ->
     rs !! k = Some r ->
     k = 4%nat \/ ~ rate_limited_failure r ->
     withRetry fn 0 w = (r, w') /\ length rs = S k).
Proof.
  split.
  - intros Hall.
    assert (Heq : withRetry fn 0 w =
      (let w1 := snd (fn w) in
       let w2 := snd (fn (setTimeout 1000 w1)) in
       let w3 := snd (fn (setTimeout 2000 w2)) in
       let w4 := snd (fn (setTimeout 4000 w3)) in
       fn (setTimeout 8000 w4))).
    { unfold withRetry. simpl.
      repeat match goal with
      | |- context [fn ?w0] =>
          lazymatch goal with
          | H : fn w0 = _ |- _ => fail
          | _ => idtac
          end;
          let r := fresh "r" in let w1 := fresh "w" in let E := fresh "E" in
          pose proof (Hall w0) as E;
          destruct (fn w0) as [r w1] eqn:?; simpl in E;
          destruct r; [contradiction|]; rewrite ?E; simpl
      end.
      reflexivity. }
    split; [exact Heq|]. rewrite Heq. simpl. apply Hall.
  - intros k rs w' r Hk Hatt Hpre Hlast Hstop. split.
    + unfold withRetry.
      apply (withRetry_loop_schedule fn k 0 _ w w' rs r); simpl; try lia; assumption.
    + pose proof (attempts_length fn (take k RETRY_DELAYS) w) as Hlen.
      rewrite Hatt in Hlen. simpl in Hlen. rewrite Hlen.
      rewrite length_take. simpl. lia.
Qed.

Lemma withRetry_backoff_witness :
  withRetry always_limited 0 world0 =
    (Throw too_many_requests,
     mkWorld empty_db
       [EvHttpGet "https://api.github.com"; EvSleep 1000;
        EvHttpGet "https://api.github.com"; EvSleep 2000;
        EvHttpGet "https://api.github.com"; EvSleep 4000;
        EvHttpGet "https://api.github.com"; EvSleep 8000;
        EvHttpGet "https://api.github.com"] 5%nat)
  /\
  withRetry limited_twice 0 world0 =
    (Ok "diff",
     mkWorld empty_db
       [EvHttpGet "https://api.github.com"; EvSleep 1000;
        EvHttpGet "https://api.github.com"; EvSleep 2000;
        EvHttpGet "https://api.github.com"] 3%nat)
  /\
  withRetry limited_then_missing 0 world0 =
    (Throw not_found,
     mkWorld empty_db
       [EvHttpGet "https://api.github.com"; EvSleep 1000;
        EvHttpGet "https://api.github.com"] 2%nat).
Proof.
  split; [|split].
  - destruct (withRetry_backoff always_limited world0) as [Hall _].
    destruct Hall as [Heq _].
    + intros w0. reflexivity.
    + rewrite Heq. reflexivity.
  - destruct (withRetry_backoff limited_twice world0) as [_ Hany].
    refine (proj1 (Hany 2%nat
      [Throw too_many_requests; Throw too_many_requests; Ok "diff"] _ _ _ _ _ _ _)).
    + lia.
    + reflexivity.
    + intros [|[|i]] ri Hi Hri; simpl in Hri; inversion Hri; subst; try reflexivity; lia.
    + reflexivity.
    + right. simpl. tauto.
  - destruct (withRetry_backoff limited_then_missing world0) as [_ Hany].
    refine (proj1 (Hany 1%nat
      [Throw too_many_requests; Throw not_found] _ _ _ _ _ _ _)).
    + lia.
    + reflexivity.
    + intros [|i] ri Hi Hri; simpl in Hri; inversion Hri; subst; try reflexivity; lia.
    + reflexivity.
    + right. simpl. discriminate.
Defined.

(** ** Commit ingestion *)

Section IngestionFacts.

Context {X : Type} (caps : Capabilities X).

Lemma summariesCommit_body_unfold (githubUrl hash : string) (w : World X) :
  summariesCommit_body caps githubUrl hash w =
    let u := diff_url githubUrl hash in
    let (rd, x1) := axiosGet caps u (ext w) in
    let w1 := mkWorld (store w) (timeline w ++ [EvHttpGet u]) x1 in
    match rd with
    | Throw _ => (Ok SUMMARY_ERROR, w1)
    | Ok data =>
        if falsy data then (Ok SUMMARY_ERROR, w1)
        else
          let (rs, x2) := aiSummarizeCommit caps data x1 in
          let w2 := mkWorld (store w)
                      (timeline w ++ [EvHttpGet u; EvSummarizeCommit data]) x2 in
          match rs with
          | Throw _ => (Ok SUMMARY_ERROR, w2)
          | Ok s => if falsy s then (Ok SUMMARY_MISSING, w2) else (Ok s, w2)
          end
    end.
Proof.
  unfold summariesCommit_body, try_catch, bind, call, throw, ret. cbn zeta.
  destruct (axiosGet caps (diff_url githubUrl hash) (ext w)) as [[data|e] x1];
    [|reflexivity].
  destruct (falsy data); [reflexivity|]. cbn.
  destruct (aiSummarizeCommit caps data x1) as [[s|e] x2];
    rewrite <- app_assoc; cbn; [|reflexivity].
  destruct (falsy s); reflexivity.
Qed.

(** The body never rejects, so [withRetry] returns after its first call. *)
Lemma summariesCommit_is_body (githubUrl hash : string) (w : World X) :
  summariesCommit caps githubUrl hash w = summariesCommit_body caps githubUrl hash w.
Proof.
  unfold summariesCommit, withRetry. cbn [withRetry_loop length RETRY_DELAYS Nat.sub].
  rewrite summariesCommit_body_unfold. cbn zeta.
  destruct (axiosGet caps _ (ext w)) as [[data|e] x1]; [|reflexivity].
  destruct (falsy data); [reflexivity|].
  destruct (aiSummarizeCommit caps data x1) as [[s|e] x2]; [|reflexivity].
  destruct (falsy s); reflexivity.
Qed.

Lemma summariesCommit_result (githubUrl hash : string) (w : World X) :
  exists s w1,
    summariesCommit caps githubUrl hash w = (Ok s, w1) /\
    store w1 = store w /\
    s = summary_of (fst (axiosGet caps (diff_url githubUrl hash) (ext w)))
          (fun data =>
             fst (aiSummarizeCommit caps data
                    (snd (axiosGet caps (diff_url githubUrl hash) (ext w))))) /\
    (timeline w1 = timeline w ++ [EvHttpGet (diff_url githubUrl hash)] \/
     exists data,
       timeline w1 = timeline w ++ [EvHttpGet (diff_url githubUrl hash);
                                    EvSummarizeCommit data]).
Proof.
  rewrite summariesCommit_is_body, summariesCommit_body_unfold. cbn zeta.
  unfold summary_of.
  destruct (axiosGet caps _ (ext w)) as [[data|e] x1]; cbn [fst snd].
  - destruct (falsy data).
    + eexists _, _. repeat split; eauto.
    + destruct (aiSummarizeCommit caps data x1) as [[s|e] x2]; cbn [fst].
      * destruct (falsy s); eexists _, _; repeat split; eauto.
      * eexists _, _; repeat split; eauto.
  - eexists _, _. repeat split; eauto.
Qed.

Lemma process_commit_result (githubUrl : string) (c : Response) (w : World X) :
  exists s w1,
    summariesCommit caps githubUrl (commitHash c) w = (Ok s, w1) /\
    process_commit caps githubUrl c w = (Ok (Some (mkSummarized c s)), w1).
Proof.
  destruct (summariesCommit_result githubUrl (commitHash c) w)
    as (s & w1 & Hs & _).
  exists s, w1. split; [exact Hs|].
  unfold process_commit, try_catch, bind, ret. now rewrite Hs.
Qed.

Lemma summarize_all_cons (githubUrl : string) (c : Response) (cs : list Response)
  (w : World X) :
  summarize_all caps githubUrl (c :: cs) w =
    let (r, w1) := process_commit caps githubUrl c w in
    let (rs, w2) := summarize_all caps githubUrl cs w1 in
    (match r, rs with
     | Ok a, Ok l => Ok (a :: l)
     | Ok _, Throw e => Throw e
     | Throw e, _ => Throw e
     end, w2).
Proof.
  unfold summarize_all, Promise_all, limit. cbn [map settle_all].
  destruct (process_commit caps githubUrl c w) as [r w1].
  destruct (settle_all _ w1) as [rs w2]. cbn [collect].
  destruct r; reflexivity.
Qed.

(** The fan-out yields one entry per submitted commit, in order, and the
    [null] of its [catch] never occurs. *)
Lemma summarize_all_result (githubUrl : string) (cs : list Response) (w : World X) :
  exists sums w1,
    summarize_all caps githubUrl cs w = (Ok (Some <$> sums), w1) /\
    s_commit <$> sums = cs /\
    store w1 = store w.
Proof.
  revert w. induction cs as [|c cs IH]; intros w.
  - exists [], w. repeat split; reflexivity.
  - rewrite summarize_all_cons.
    destruct (process_commit_result githubUrl c w) as (s & w1 & Hs & Hp).
    destruct (summariesCommit_result githubUrl (commitHash c) w)
      as (s' & w1' & Hs' & Hst & _).
    rewrite Hs in Hs'. injection Hs' as <- <-.
    rewrite Hp.
    destruct (IH w1) as (sums & w2 & Hall & Hc & Hst2).
    rewrite Hall.
    exists (mkSummarized c s :: sums), w2. repeat split.
    + cbn. now rewrite Hc.
    + congruence.
Qed.

(** The fan-out makes one diff request per commit, in order, and no wait. *)
Lemma summarize_all_requests (githubUrl : string) (cs : list Response) (w : World X) :
  let w2 := snd (summarize_all caps githubUrl cs w) in
  waits_of (timeline w2) = waits_of (timeline w) /\
  gets_of (timeline w2)
    = gets_of (timeline w) ++ ((fun c => diff_url githubUrl (commitHash c)) <$> cs).
Proof.
  revert w. induction cs as [|c cs IH]; intros w; cbn zeta.
  - cbn. now rewrite app_nil_r.
  - rewrite summarize_all_cons.
    destruct (process_commit_result githubUrl c w) as (s & w1 & Hs & Hp).
    destruct (summariesCommit_result githubUrl (commitHash c) w)
      as (s' & w1' & Hs' & _ & _ & Htl).
    rewrite Hs in Hs'. injection Hs' as <- <-.
    rewrite Hp. specialize (IH w1). cbn zeta in IH.
    destruct (summarize_all caps githubUrl cs w1) as [rs w2]. cbn [snd] in *.
    destruct IH as [IHw IHg]. rewrite IHw, IHg.
    unfold waits_of, gets_of.
    destruct Htl as [->|[data ->]]; rewrite !omap_app; cbn;
      rewrite ?app_nil_r, <- ?app_assoc; split; reflexivity.
Qed.

(** When the answers of the two services depend on the request only, each
    entry of the fan-out is computed from the answers to its own commit. *)
Lemma summarize_all_determined (githubUrl : string) (cs : list Response)
  (fetch summarize : string -> Res string) (w : World X) :
  (forall c x, c ∈ cs ->
     fst (axiosGet caps (diff_url githubUrl (commitHash c)) x) = fetch (commitHash c)) ->
  (forall data x, fst (aiSummarizeCommit caps data x) = summarize data) ->
  exists w1,
    summarize_all caps githubUrl cs w =
      (Ok (map (fun c => Some (mkSummarized c
                  (summary_of (fetch (commitHash c)) summarize))) cs), w1) /\
    store w1 = store w.
Proof.
  intros Hfetch Hsum. revert w. induction cs as [|c cs IH]; intros w.
  - exists w. split; reflexivity.
  - rewrite summarize_all_cons.
    destruct (process_commit_result githubUrl c w) as (s & w1 & Hs & Hp).
    destruct (summariesCommit_result githubUrl (commitHash c) w)
      as (s' & w1' & Hs' & Hst & Hval & _).
    rewrite Hs in Hs'. injection Hs' as <- <-.
    rewrite Hp.
    destruct (IH (fun c0 x Hc0 => Hfetch c0 x (list_elem_of_further _ _ _ Hc0)) w1)
      as (w2 & Hall & Hst2).
    rewrite Hall. exists w2. split; [|congruence].
    cbn [map]. do 3 f_equal.
    rewrite Hval, Hfetch by apply list_elem_of_here.
    unfold summary_of. destruct (fetch (commitHash c)) as [data|e]; [|reflexivity].
    destruct (falsy data); [reflexivity|]. now rewrite Hsum.
Qed.

Lemma add_commits_nil (d : Db) : add_commits d [] = d.
Proof. destruct d. unfold add_commits. cbn. now rewrite app_nil_r. Qed.

Lemma add_commits_app (d : Db) (a b : list CommitRow) :
  add_commits (add_commits d a) b = add_commits d (a ++ b).
Proof. unfold add_commits. cbn. now rewrite app_assoc. Qed.

Lemma db_commit_create_spec (row : CommitRow) (w : World X) :
  db_commit_create caps row w =
    let (o, x1) := commitCreateFault caps row (ext w) in
    match o with
    | Some e => (Throw e, mkWorld (store w) (timeline w) x1)
    | None => (Ok row, mkWorld (add_commits (store w) [row]) (timeline w) x1)
    end.
Proof.
  unfold db_commit_create, bind, fault, get_store, put_store, ret.
  destruct (commitCreateFault caps row (ext w)) as [[e|] x1]; reflexivity.
Qed.

Lemma stored_rows_app (projectId : string) (l1 l2 : list Summarized) (x : X) :
  stored_rows caps projectId (l1 ++ l2) x =
    let (r1, x1) := stored_rows caps projectId l1 x in
    let (r2, x2) := stored_rows caps projectId l2 x1 in
    (r1 ++ r2, x2).
Proof.
  revert x. induction l1 as [|v l1 IH]; intros x; cbn [app stored_rows].
  - destruct (stored_rows caps projectId l2 x). reflexivity.
  - destruct (commitCreateFault caps (row_of projectId v) x) as [o x1].
    rewrite IH.
    destruct (stored_rows caps projectId l1 x1) as [r1 x2].
    destruct (stored_rows caps projectId l2 x2) as [r2 x3].
    destruct o; reflexivity.
Qed.

Lemma store_commit_spec (projectId : string) (v : Summarized)
  (results : list CommitRow) (w : World X) :
  store_commit caps projectId v results w =
    let (o, x1) := commitCreateFault caps (row_of projectId v) (ext w) in
    match o with
    | Some _ => (Ok results, mkWorld (store w) (timeline w) x1)
    | None =>
        (Ok (results ++ [row_of projectId v]),
         mkWorld (add_commits (store w) [row_of projectId v]) (timeline w) x1)
    end.
Proof.
  unfold store_commit, try_catch, bind. fold (row_of projectId v).
  rewrite db_commit_create_spec.
  destruct (commitCreateFault caps (row_of projectId v) (ext w)) as [[e|] x1];
    reflexivity.
Qed.

Lemma store_batch_spec (projectId : string) (vs : list Summarized) :
  forall (results : list CommitRow) (w : World X),
    store_batch caps projectId vs results w =
      let (rows, x1) := stored_rows caps projectId vs (ext w) in
      (Ok (results ++ rows),
       mkWorld (add_commits (store w) rows) (timeline w) x1).
Proof.
  induction vs as [|v vs IH]; intros results w; cbn [store_batch stored_rows].
  - unfold ret. rewrite app_nil_r, add_commits_nil. now destruct w.
  - unfold bind. rewrite store_commit_spec.
    destruct (commitCreateFault caps (row_of projectId v) (ext w)) as [[e|] x1];
      rewrite IH; cbn [ext store timeline];
      destruct (stored_rows caps projectId vs x1) as [rows x2].
    + reflexivity.
    + rewrite add_commits_app, <- app_assoc. reflexivity.
Qed.

(** The batches of three with their pauses store what one pass over the
    valid summaries stores; the fuel of [pollCommits] is enough. *)
Lemma batch_loop_spec (projectId : string) (vs : list Summarized) :
  forall (fuel i : nat) (results : list CommitRow) (w : World X),
    (length vs - i <= fuel)%nat ->
    exists n,
      batch_loop caps fuel projectId vs i results w =
        let (rows, x1) := stored_rows caps projectId (drop i vs) (ext w) in
        (Ok (results ++ rows),
         mkWorld (add_commits (store w) rows)
                 (timeline w ++ replicate n (EvSleep 500)) x1).
Proof.
  assert (Hdone : forall i results (w : World X),
    (length vs <= i)%nat ->
    (Ok results, w) =
      (let (rows, x1) := stored_rows caps projectId (drop i vs) (ext w) in
       (Ok (results ++ rows),
        mkWorld (add_commits (store w) rows)
                (timeline w ++ replicate 0 (EvSleep 500)) x1))).
  { intros i results w Hi. rewrite drop_ge by exact Hi. cbn.
    rewrite !app_nil_r, add_commits_nil. now destruct w. }
  induction fuel as [|fuel IH]; intros i results w Hfuel.
  - exists 0%nat. cbn [batch_loop]. unfold ret. apply Hdone. lia.
  - cbn [batch_loop]. case_bool_decide as Hi.
    + destruct (stored_rows caps projectId (take batchSize (drop i vs)) (ext w))
        as [rows1 x1] eqn:E1.
      destruct (IH (i + batchSize)%nat (results ++ rows1)
                  (setTimeout 500 (mkWorld (add_commits (store w) rows1) (timeline w) x1)))
        as [n Hn].
      { unfold batchSize. lia. }
      exists (S n). unfold bind at 1. rewrite store_batch_spec, E1.
      unfold bind, sleep. rewrite Hn. cbn [ext store timeline setTimeout].
      rewrite <- (take_drop batchSize (drop i vs)) at 1.
      rewrite stored_rows_app, E1, drop_drop.
      destruct (stored_rows caps projectId (drop (i + batchSize) vs) x1) as [rows2 x2].
      rewrite add_commits_app, <- !app_assoc. reflexivity.
    + exists 0%nat. unfold ret. apply Hdone. lia.
Qed.

Lemma withRetry_loop_store {T} (fn : Async X T) :
  (forall w, store (snd (fn w)) = store w) ->
  forall fuel retryCount w,
    store (snd (withRetry_loop fuel fn retryCount w)) = store w.
Proof.
  intros Hfn. induction fuel as [|fuel IH]; intros rc w; cbn [withRetry_loop];
    specialize (Hfn w); destruct (fn w) as [[v|e] w1]; cbn [snd] in *;
    try exact Hfn; destruct (_ && _); cbn [snd]; try exact Hfn.
  rewrite IH. exact Hfn.
Qed.

Lemma getCommitHashes_store (githubUrl : string) (w : World X) :
  store (snd (getCommitHashes caps githubUrl w)) = store w.
Proof.
  unfold getCommitHashes, withRetry. apply withRetry_loop_store.
  intros w0. unfold call. now destruct (listRecentCommits caps githubUrl (ext w0)).
Qed.

Lemma fetchProjectGithubUrl_readonly (projectId : string) (w : World X) :
  snd (fetchProjectGithubUrl projectId w) = w.
Proof.
  unfold fetchProjectGithubUrl, bind, get_store, throw, ret.
  now destruct (List.find _ _).
Qed.

Lemma filterUnprocessedCommits_spec (projectId : string) (listing : list Response)
  (w : World X) :
  filterUnprocessedCommits projectId listing w =
    (Ok (unprocessed projectId (store w) listing), w).
Proof.
  unfold filterUnprocessedCommits, bind, get_store, ret, unprocessed.
  do 2 f_equal. apply list_filter_iff. intros c.
  now rewrite elem_of_list_to_set.
Qed.

Lemma omap_id_Some {A} (l : list A) : omap id (Some <$> l) = l.
Proof. induction l as [|a l IH]; cbn; [reflexivity|now rewrite IH]. Qed.

(** One run of [pollCommits] for a project that exists, over the listing
    that [getCommitHashes] returned. *)
Lemma pollCommits_run (projectId githubUrl : string) (listing : list Response)
  (w wl : World X) :
  fetchProjectGithubUrl projectId w = (Ok githubUrl, w) ->
  getCommitHashes caps githubUrl w = (Ok listing, wl) ->
  exists sums w1 w2,
    summarize_all caps githubUrl (unprocessed projectId (store w) listing) wl
      = (Ok (Some <$> sums), w1) /\
    s_commit <$> sums = unprocessed projectId (store w) listing /\
    pollCommits caps projectId w
      = (Ok (fst (stored_rows caps projectId sums (ext w1))), w2) /\
    store w2
      = add_commits (store w) (fst (stored_rows caps projectId sums (ext w1))).
Proof.
  intros Hproject Hlisting.
  assert (Hwl : store wl = store w).
  { pose proof (getCommitHashes_store githubUrl w) as H.
    now rewrite Hlisting in H. }
  destruct (summarize_all_result githubUrl
              (unprocessed projectId (store w) listing) wl)
    as (sums & w1 & Hall & Hsums & Hw1).
  exists sums, w1.
  unfold pollCommits, try_catch. unfold bind at 1. rewrite Hproject.
  unfold bind at 1. rewrite Hlisting.
  unfold bind at 1. rewrite filterUnprocessedCommits_spec, Hwl.
  case_bool_decide as Hemp.
  - apply length_zero_iff_nil in Hemp.
    rewrite Hemp in Hsums. apply fmap_nil_inv in Hsums. subst sums.
    rewrite Hemp in Hall. cbn in Hall. injection Hall as <-.
    exists wl. cbn. rewrite add_commits_nil, Hemp. repeat split; auto.
  - unfold bind. rewrite Hall, omap_id_Some.
    destruct (batch_loop_spec projectId sums (length sums) 0 [] w1) as [n Hn];
      [lia|].
    rewrite Hn. change (drop 0 sums) with sums. cbn [app].
    destruct (stored_rows caps projectId sums (ext w1)) as [rows x1].
    eexists. repeat split; try reflexivity; try assumption.
    cbn [store fst]. now rewrite Hw1, Hwl.
Qed.

Lemma stored_rows_sublist (projectId : string) (vs : list Summarized) (x : X) :
  fst (stored_rows caps projectId vs x) `sublist_of` (row_of projectId <$> vs).
Proof.
  revert x. induction vs as [|v vs IH]; intros x; cbn [stored_rows fmap list_fmap].
  - constructor.
  - destruct (commitCreateFault caps (row_of projectId v) x) as [o x1].
    specialize (IH x1).
    destruct (stored_rows caps projectId vs x1) as [rows x2]. cbn [fst] in *.
    destruct o; [apply sublist_cons|apply sublist_skip]; exact IH.
Qed.

Lemma stored_rows_no_fault (projectId : string) (vs : list Summarized) (x : X) :
  (forall row x0, fst (commitCreateFault caps row x0) = None) ->
  fst (stored_rows caps projectId vs x) = row_of projectId <$> vs.
Proof.
  intros Hok. revert x.
  induction vs as [|v vs IH]; intros x; cbn [stored_rows fmap list_fmap].
  - reflexivity.
  - pose proof (Hok (row_of projectId v) x) as H.
    destruct (commitCreateFault caps (row_of projectId v) x) as [o x1].
    cbn [fst] in H. subst o. specialize (IH x1).
    destruct (stored_rows caps projectId vs x1) as [rows x2]. cbn [fst] in *.
    now rewrite IH.
Qed.

Lemma findMany_add_commits (projectId : string) (d : Db) (rows : list CommitRow) :
  Forall (fun row => c_projectId row = projectId) rows ->
  findMany_commitHash projectId (add_commits d rows) =
    findMany_commitHash projectId d ++ (c_commitHash <$> rows).
Proof.
  intros Hrows. unfold findMany_commitHash, add_commits. cbn [commits].
  rewrite filter_app, map_app. f_equal.
  induction Hrows as [|row rows Hrow _ IH]; [reflexivity|].
  rewrite filter_cons_True by exact Hrow. cbn. now rewrite IH.
Qed.

Lemma fetchProjectGithubUrl_projects (projectId githubUrl : string) (w w1 : World X) :
  projects (store w1) = projects (store w) ->
  fetchProjectGithubUrl projectId w = (Ok githubUrl, w) ->
  fetchProjectGithubUrl projectId w1 = (Ok githubUrl, w1).
Proof.
  unfold fetchProjectGithubUrl, bind, get_store, throw, ret.
  intros ->. destruct (List.find _ _); [|discriminate].
  intros [= ->]. reflexivity.
Qed.

Lemma row_of_hashes (projectId : string) (sums : list Summarized) :
  c_commitHash <$> (row_of projectId <$> sums) = commitHash <$> (s_commit <$> sums).
Proof. induction sums as [|v sums IH]; cbn; [reflexivity|now rewrite IH]. Qed.

(** The rows one run creates: all for the project, and their hashes are
    hashes of unprocessed commits of the listing, in listing order. *)
Lemma pollCommits_new_rows (projectId githubUrl : string) (listing : list Response)
  (w wl : World X) :
  fetchProjectGithubUrl projectId w = (Ok githubUrl, w) ->
  getCommitHashes caps githubUrl w = (Ok listing, wl) ->
  exists new w2,
    pollCommits caps projectId w = (Ok new, w2) /\
    store w2 = add_commits (store w) new /\
    Forall (fun row => c_projectId row = projectId) new /\
    (c_commitHash <$> new)
      `sublist_of` (commitHash <$> unprocessed projectId (store w) listing).
Proof.
  intros Hproject Hlisting.
  destruct (pollCommits_run projectId githubUrl listing w wl Hproject Hlisting)
    as (sums & w1 & w2 & _ & Hsums & Hrun & Hstore).
  exists (fst (stored_rows caps projectId sums (ext w1))), w2.
  pose proof (stored_rows_sublist projectId sums (ext w1)) as Hsub.
  repeat split; try assumption.
  - apply Forall_forall. intros row Hrow.
    apply (elem_of_sublist _ _ _ Hrow) in Hsub as Hrow'. clear Hrow. rename Hrow' into Hrow.
    apply list_elem_of_fmap in Hrow as (v & -> & _). reflexivity.
  - rewrite <- Hsums, <- (row_of_hashes projectId). now apply fmap_sublist.
Qed.

Lemma unprocessed_elem_of (projectId : string) (d : Db) (listing : list Response)
  (c : Response) :
  c ∈ unprocessed projectId d listing <->
  c ∈ listing /\ commitHash c ∉ findMany_commitHash projectId d.
Proof. unfold unprocessed. rewrite list_elem_of_filter. tauto. Qed.

(** A run keeps the stored hashes of the project pairwise distinct when the
    listing has pairwise distinct hashes. *)
Lemma pollCommits_NoDup (projectId githubUrl : string) (listing : list Response)
  (w wl : World X) :
  fetchProjectGithubUrl projectId w = (Ok githubUrl, w) ->
  getCommitHashes caps githubUrl w = (Ok listing, wl) ->
  NoDup (commitHash <$> listing) ->
  NoDup (findMany_commitHash projectId (store w)) ->
  NoDup (findMany_commitHash projectId (store (snd (pollCommits caps projectId w)))).
Proof.
  intros Hproject Hlisting Hnd Hdb.
  destruct (pollCommits_new_rows projectId githubUrl listing w wl Hproject Hlisting)
    as (new & w2 & Hrun & Hstore & Hpid & Hsub).
  rewrite Hrun. cbn [snd]. rewrite Hstore, findMany_add_commits by exact Hpid.
  apply NoDup_app. split; [exact Hdb|]. split.
  - intros h Hh Hnew.
    apply (elem_of_sublist _ _ _ Hnew) in Hsub as Hnew'. clear Hnew. rename Hnew' into Hnew.
    apply list_elem_of_fmap in Hnew as (c & -> & Hc).
    apply unprocessed_elem_of in Hc as [_ Hc]. contradiction.
  - eapply sublist_NoDup; [|exact Hsub].
    eapply sublist_NoDup; [exact Hnd|].
    apply fmap_sublist. unfold unprocessed. apply sublist_filter.
Qed.

End IngestionFacts.

(** C10. [summariesCommit] never rejects: whatever the diff request and the
    summarizer do, rate-limited failures included, the call equals one run
    of the function handed to [withRetry], resolves to the summary or to
    "Error generating summary", adds to the timeline one diff request, at
    most one summarizer call and no wait, and the task of the fan-out
    resolves to an entry, never to [null]; so the fan-out over any commits
    resolves with one entry per commit, after one diff request per commit
    and no wait. *)
Theorem summariesCommit_never_rejects {X : Type} (caps : Capabilities X)
  (githubUrl : string) (commit : Response) (cs : list Response) (w : World X) :
  let u := diff_url githubUrl (commitHash commit) in
  summariesCommit caps githubUrl (commitHash commit) w
    = summariesCommit_body caps githubUrl (commitHash commit) w
  /\
  (exists s w1,
     summariesCommit caps githubUrl (commitHash commit) w = (Ok s, w1) /\
     s = summary_of (fst (axiosGet caps u (ext w)))
           (fun data =>
              fst (aiSummarizeCommit caps data (snd (axiosGet caps u (ext w))))) /\
     (timeline w1 = timeline w ++ [EvHttpGet u] \/
      exists data,
        timeline w1 = timeline w ++ [EvHttpGet u; EvSummarizeCommit data]) /\
     process_commit caps githubUrl commit w = (Ok (Some (mkSummarized commit s)), w1))
  /\
  (exists sums w2,
     summarize_all caps githubUrl cs w = (Ok (Some <$> sums), w2) /\
     s_commit <$> sums = cs /\
     waits_of (timeline w2) = waits_of (timeline w) /\
     gets_of (timeline w2)
       = gets_of (timeline w) ++ ((fun c => diff_url githubUrl (commitHash c)) <$> cs)).
Proof.
  intros u. split; [apply summariesCommit_is_body|]. split.
  - destruct (summariesCommit_result caps githubUrl (commitHash commit) w)
      as (s & w1 & Hs & _ & Hval & Htl).
    destruct (process_commit_result caps githubUrl commit w)
      as (s' & w1' & Hs' & Hp).
    rewrite Hs in Hs'. injection Hs' as <- <-.
    exists s, w1. repeat split; assumption.
  - destruct (summarize_all_result caps githubUrl cs w) as (sums & w2 & H1 & H2 & _).
    pose proof (summarize_all_requests caps githubUrl cs w) as H3.
    rewrite H1 in H3. cbn zeta in H3. cbn [snd] in H3. destruct H3 as [H3 H4].
    exists sums, w2. repeat split; assumption.
Qed.

(** A diff request that is rate limited yields the sentinel after one
    request and no wait. *)
Example summariesCommit_rate_limited :
  summariesCommit diff_always_limited repo_url "a1" project_world =
    (Ok "Error generating summary",
     mkWorld project_db [EvHttpGet "https://github.com/o/r/commit/a1.diff"] 1%nat).
Proof. reflexivity. Qed.

(** C4. In one run of [pollCommits] over services whose answers depend on
    the request only and a store that accepts every row, each unprocessed
    commit gets a record whose summary is computed from the answers to its
    own diff request and summarization: "Error generating summary" when
    either fails, its own summary otherwise, whatever happens to the other
    commits. *)
Theorem pollCommits_fault_isolation {X : Type} (caps : Capabilities X)
  (projectId githubUrl : string) (listing : list Response)
  (fetch summarize : string -> Res string) (w wl : World X) :
  fetchProjectGithubUrl projectId w = (Ok githubUrl, w) ->
  getCommitHashes caps githubUrl w = (Ok listing, wl) ->
  (forall c x, c ∈ listing ->
     fst (axiosGet caps (diff_url githubUrl (commitHash c)) x) = fetch (commitHash c)) ->
  (forall data x, fst (aiSummarizeCommit caps data x) = summarize data) ->
  (forall row x, fst (commitCreateFault caps row x) = None) ->
  let todo := unprocessed projectId (store w) listing in
  let summarized c :=
    mkSummarized c (summary_of (fetch (commitHash c)) summarize) in
  exists w1 w2,
    summarize_all caps githubUrl todo wl = (Ok (map (fun c => Some (summarized c)) todo), w1) /\
    pollCommits caps projectId w = (Ok (map (fun c => row_of projectId (summarized c)) todo), w2) /\
    commits (store w2)
      = commits (store w) ++ map (fun c => row_of projectId (summarized c)) todo /\
    (forall c, c ∈ todo -> is_ok (fetch (commitHash c)) = false ->
       s_summary (summarized c) = "Error generating summary") /\
    (forall c data, c ∈ todo -> fetch (commitHash c) = Ok data ->
       is_ok (summarize data) = false ->
       s_summary (summarized c) = "Error generating summary") /\
    (forall c data s, c ∈ todo -> fetch (commitHash c) = Ok data ->
       falsy data = false -> summarize data = Ok s -> falsy s = false ->
       s_summary (summarized c) = s).
Proof.
  intros Hproject Hlisting Hfetch Hsum Hstore todo summarized.
  destruct (pollCommits_run caps projectId githubUrl listing w wl Hproject Hlisting)
    as (sums & w1 & w2 & Hall & Hsums & Hrun & Hst).
  destruct (summarize_all_determined caps githubUrl todo fetch summarize wl)
    as (w1' & Hdet & _).
  { intros c x Hc. apply Hfetch. now apply unprocessed_elem_of in Hc as [Hc _]. }
  { exact Hsum. }
  fold todo in Hall. rewrite Hall in Hdet. injection Hdet as Hsame <-.
  assert (Hs : sums = map summarized todo).
  { apply (inj (fmap Some)). rewrite Hsame.
    change (Some <$> map summarized todo) with (Some <$> (summarized <$> todo)).
    now rewrite <- list_fmap_compose. }
  rewrite stored_rows_no_fault in Hrun, Hst by exact Hstore.
  assert (Hrows : row_of projectId <$> sums
                  = map (fun c => row_of projectId (summarized c)) todo).
  { rewrite Hs. change (map summarized todo) with (summarized <$> todo).
    now rewrite <- list_fmap_compose. }
  rewrite Hrows in Hrun, Hst.
  exists w1, w2. split; [|split; [exact Hrun|split]].
  - rewrite Hall, Hsame. reflexivity.
  - now rewrite Hst.
  - unfold summarized, summary_of. cbn [s_summary]. repeat split.
    + intros c _ Hc. now destruct (fetch (commitHash c)).
    + intros c data _ -> Hd. destruct (falsy data); [reflexivity|].
      now destruct (summarize data).
    + intros c data s _ -> -> -> ->. reflexivity.
Qed.

Lemma pollCommits_fault_isolation_witness :
  map c_summary
      (commits (store (snd (pollCommits third_summary_fails "p1" project_world))))
  = [ "about diff https://github.com/o/r/commit/a1.diff";
      "about diff https://github.com/o/r/commit/b2.diff";
      "Error generating summary";
      "about diff https://github.com/o/r/commit/d4.diff";
      "about diff https://github.com/o/r/commit/e5.diff" ].
Proof.
  destruct (pollCommits_fault_isolation third_summary_fails "p1" repo_url
              five_commits
              (fun hash => Ok ("diff " +:+ diff_url repo_url hash))
              (fun diff =>
                 if String.eqb diff ("diff " +:+ diff_url repo_url "c3")
                 then Throw server_error
                 else Ok ("about " +:+ diff))
              project_world
              (mkWorld project_db [EvListCommits repo_url] 0%nat))
    as (w1 & w2 & _ & Hrun & Hcommits & _).
  - reflexivity.
  - reflexivity.
  - intros c x _. reflexivity.
  - intros data x. reflexivity.
  - intros row x. reflexivity.
  - rewrite Hrun. cbn [snd]. rewrite Hcommits. vm_compute. reflexivity.
Defined.

(** C3 (as amended). A run of [pollCommits] drops from the listing every
    commit whose hash is stored for the project, so the rows that a second
    run, started on the store the first run left, creates are rows of the
    project whose hashes were not stored after the first; when every listed
    commit is stored after the first run (which is so when no
    [db.commit.create] fails), the second run over the same listing returns
    no row and leaves the store as it was; and when the listing has pairwise
    distinct hashes, stored hashes of the project that were pairwise
    distinct stay so through both runs. *)
Theorem pollCommits_second_run {X : Type} (caps : Capabilities X)
  (projectId githubUrl : string) (listing : list Response)
  (w wl w1 wl2 : World X) :
  fetchProjectGithubUrl projectId w = (Ok githubUrl, w) ->
  getCommitHashes caps githubUrl w = (Ok listing, wl) ->
  store w1 = store (snd (pollCommits caps projectId w)) ->
  getCommitHashes caps githubUrl w1 = (Ok listing, wl2) ->
  let stored1 := findMany_commitHash projectId (store w1) in
  let w2 := snd (pollCommits caps projectId w1) in
  (filterUnprocessedCommits projectId listing w1
     = (Ok (unprocessed projectId (store w1) listing), w1) /\
   forall c, c ∈ unprocessed projectId (store w1) listing <->
             c ∈ listing /\ commitHash c ∉ stored1)
  /\
  (exists new2,
     fst (pollCommits caps projectId w1) = Ok new2 /\
     commits (store w2) = commits (store w1) ++ new2 /\
     Forall (fun row => c_projectId row = projectId /\ c_commitHash row ∉ stored1) new2)
  /\
  ((forall row x, fst (commitCreateFault caps row x) = None) ->
   forall c, c ∈ listing -> commitHash c ∈ stored1)
  /\
  ((forall c, c ∈ listing -> commitHash c ∈ stored1) ->
   pollCommits caps projectId w1 = (Ok [], wl2) /\
   store w2 = store w1 /\
   length (commits (store w2)) = length (commits (store w1)))
  /\
  (NoDup (commitHash <$> listing) ->
   NoDup (findMany_commitHash projectId (store w)) ->
   NoDup stored1 /\ NoDup (findMany_commitHash projectId (store w2))).
Proof.
  intros Hproject Hlisting Hsame Hlisting2 stored1 w2.
  destruct (pollCommits_new_rows caps projectId githubUrl listing w wl
              Hproject Hlisting) as (new1 & w1' & Hrun1 & Hstore1 & Hpid1 & Hsub1).
  assert (Hw1 : store w1 = store w1') by (rewrite Hsame; now rewrite Hrun1).
  assert (Hproject1 : fetchProjectGithubUrl projectId w1 = (Ok githubUrl, w1)).
  { apply (fetchProjectGithubUrl_projects projectId githubUrl w); [|exact Hproject].
    rewrite Hw1, Hstore1. reflexivity. }
  destruct (pollCommits_new_rows caps projectId githubUrl listing w1 wl2
              Hproject1 Hlisting2) as (new2 & w2' & Hrun2 & Hstore2 & Hpid2 & Hsub2).
  assert (Hw2 : w2 = w2') by (unfold w2; now rewrite Hrun2).
  split; [|split; [|split; [|split]]].
  - split; [apply filterUnprocessedCommits_spec|].
    intros c. apply unprocessed_elem_of.
  - exists new2. rewrite Hw2, Hrun2, Hstore2. repeat split.
    apply Forall_forall. intros row Hrow. split.
    + eapply Forall_forall in Hpid2; eauto.
    + assert (Hin : c_commitHash row ∈ c_commitHash <$> new2)
        by now apply list_elem_of_fmap_2.
      apply (elem_of_sublist _ _ _ Hin) in Hsub2.
      apply list_elem_of_fmap in Hsub2 as (c & -> & Hc).
      now apply unprocessed_elem_of in Hc as [_ Hc].
  - intros Hok c Hc.
    destruct (pollCommits_run caps projectId githubUrl listing w wl Hproject Hlisting)
      as (sums & wa & wb & _ & Hsums & Hrun & Hst).
    rewrite stored_rows_no_fault in Hrun, Hst by exact Hok.
    unfold stored1. rewrite Hsame, Hrun. cbn [snd]. rewrite Hst.
    rewrite findMany_add_commits.
    2:{ apply Forall_forall. intros row Hrow.
        apply list_elem_of_fmap in Hrow as (v & -> & _). reflexivity. }
    rewrite row_of_hashes, Hsums. apply elem_of_app.
    destruct (decide (commitHash c ∈ findMany_commitHash projectId (store w)))
      as [Hin|Hout]; [now left|right].
    apply list_elem_of_fmap_2. apply unprocessed_elem_of. split; assumption.
  - intros Hall.
    assert (Hnone : unprocessed projectId (store w1) listing = []).
    { apply elem_of_nil_inv. intros c Hc.
      apply unprocessed_elem_of in Hc as [Hc Hout]. apply Hout. now apply Hall. }
    assert (Hrun : pollCommits caps projectId w1 = (Ok [], wl2)).
    { unfold pollCommits, try_catch. unfold bind at 1. rewrite Hproject1.
      unfold bind at 1. rewrite Hlisting2.
      unfold bind at 1. rewrite filterUnprocessedCommits_spec.
      pose proof (getCommitHashes_store caps githubUrl w1) as Hst.
      rewrite Hlisting2 in Hst. cbn [snd] in Hst. rewrite Hst, Hnone.
      reflexivity. }
    split; [exact Hrun|].
    assert (Hst : store w2 = store w1).
    { unfold w2. rewrite Hrun. cbn [snd].
      pose proof (getCommitHashes_store caps githubUrl w1) as Hst.
      now rewrite Hlisting2 in Hst. }
    split; [exact Hst|]. now rewrite Hst.
  - intros Hnd Hdb.
    assert (H1 : NoDup stored1).
    { unfold stored1. rewrite Hsame.
      apply (pollCommits_NoDup caps projectId githubUrl listing w wl); assumption. }
    split; [exact H1|].
    apply (pollCommits_NoDup caps projectId githubUrl listing w1 wl2); assumption.
Qed.

Lemma pollCommits_second_run_witness :
  let w1 := snd (pollCommits quiet "p1" project_world) in
  pollCommits quiet "p1" w1 = (Ok [], snd (getCommitHashes quiet repo_url w1)) /\
  length (commits (store w1)) = 5%nat /\
  length (commits (store (snd (pollCommits quiet "p1" w1)))) = 5%nat /\
  NoDup (findMany_commitHash "p1" (store (snd (pollCommits quiet "p1" w1)))).
Proof.
  intros w1.
  pose proof (pollCommits_second_run quiet "p1" repo_url five_commits
                project_world
                (mkWorld project_db [EvListCommits repo_url] 0%nat)
                w1
                (snd (getCommitHashes quiet repo_url w1))
                eq_refl eq_refl eq_refl eq_refl) as H.
  cbv zeta in H.
  destruct H as (_ & _ & Hstored & Hidem & Hnodup).
  destruct Hidem as (Hrun & _ & Hlen).
  { apply Hstored. intros row x. reflexivity. }
  destruct Hnodup as (_ & Hnd).
  { apply (bool_decide_unpack _). vm_compute. exact I. }
  { apply (bool_decide_unpack _). vm_compute. exact I. }
  split; [exact Hrun|]. split; [reflexivity|].
  split; [rewrite Hlen; reflexivity|exact Hnd].
Defined.

(** The store rejects the only row of the first run and accepts it in the
    second: with the same listing in both runs, the second run creates a
    row and the number of commit records of the project changes. *)
Lemma pollCommits_second_run_creates_row :
  let w1 := snd (pollCommits first_create_fails "p1" project_world) in
  let w2 := snd (pollCommits first_create_fails "p1" w1) in
  fst (getCommitHashes first_create_fails repo_url project_world) = Ok [commit_a] /\
  fst (getCommitHashes first_create_fails repo_url w1) = Ok [commit_a] /\
  fst (pollCommits first_create_fails "p1" project_world) = Ok [] /\
  length (commits (store w1)) = 0%nat /\
  fst (pollCommits first_create_fails "p1" w1)
    = Ok [row_of "p1" (mkSummarized commit_a
                         "about diff https://github.com/o/r/commit/a1.diff")] /\
  length (commits (store w2)) = 1%nat /\
  length (commits (store w2)) <> length (commits (store w1)).
Proof. vm_compute. repeat split; discriminate. Qed.

(** ** Repository snapshot loader *)

Section LoaderFacts.

Context {X : Type} (caps : Capabilities X).

(** Every run of the straight-line schedule has a first attempt at which
    the executor stops: one that is not a failure of the retried kind, or
    the last one. *)
Lemma attempts_stop {T} (fn : Async X T) (P : Res T -> Prop)
  `{!forall r, Decision (P r)} (waits : list Z) :
  forall w, exists k rs w' r,
    (k <= length waits)%nat /\
    attempts fn (take k waits) w = (rs, w') /\
    (forall i ri, (i < k)%nat -> rs !! i = Some ri -> P ri) /\
    rs !! k = Some r /\
    (k = length waits \/ ~ P r).
Proof.
  induction waits as [|d ds IH]; intros w.
  - exists 0%nat. cbn [take attempts]. destruct (fn w) as [r0 w1].
    exists [r0], w1, r0. repeat split; auto; intros; lia.
  - destruct (fn w) as [r0 w1] eqn:Hfn.
    destruct (decide (P r0)) as [HP|HP].
    + destruct (IH (setTimeout d w1)) as (k & rs & w' & r & Hk & Hatt & Hpre & Hlast & Hstop).
      exists (S k), (r0 :: rs), w', r. cbn [take attempts length].
      rewrite Hfn, Hatt. repeat split; auto.
      * lia.
      * intros [|i] ri Hi Hri; cbn in Hri.
        -- now injection Hri as <-.
        -- apply (Hpre i); [lia|exact Hri].
      * destruct Hstop; [left; lia|now right].
    + exists 0%nat, [r0], w1, r0. cbn [take attempts]. rewrite Hfn.
      repeat split; auto; try lia.
Qed.

(** The loop of [retry] started at [attempt] follows the straight-line
    schedule with the waits of the attempts it goes through. *)
Lemma retry_loop_schedule {T} (fn : Async X T) (maxAttempts k : nat) :
  forall (attempt fuel : nat) (w w' : World X) (rs : list (Res T)) (r : Res T),
    (attempt + k <= maxAttempts)%nat ->
    (k < fuel)%nat ->
    attempts fn (waitTime <$> seq attempt k) w = (rs, w') ->
    (forall i ri, (i < k)%nat -> rs !! i = Some ri -> rate_limit_message ri) ->
    rs !! k = Some r ->
    (attempt + k = maxAttempts)%nat \/ ~ rate_limit_message r ->
    retry_loop fuel fn maxAttempts attempt w =
      (match r with Ok v => Ok (Some v) | Throw e => Throw e end, w').
Proof.
  induction k as [|k IH]; intros attempt fuel w w' rs r Hmax Hfuel Hatt Hpre Hlast Hstop;
    (destruct fuel as [|fuel]; [lia|]); cbn [retry_loop];
    rewrite bool_decide_eq_true_2 by lia;
    cbn [seq fmap list_fmap attempts] in Hatt;
    destruct (fn w) as [r0 w1].
  - injection Hatt as <- <-. cbn in Hlast. injection Hlast as <-.
    destruct r0 as [v|e]; [reflexivity|].
    case_bool_decide; [reflexivity|].
    destruct Hstop as [Hend|Hnot]; [lia|]. cbn in Hnot.
    unfold RATE_LIMIT_TEXT.
    destruct (includes (message e) "rate limit exceeded"); [now exfalso|reflexivity].
  - destruct (attempts fn (waitTime <$> seq (S attempt) k) (setTimeout (waitTime attempt) w1))
      as [rs1 w2] eqn:Hrest.
    injection Hatt as <- <-.
    assert (H0 : rate_limit_message r0) by (apply (Hpre 0%nat); [lia|reflexivity]).
    destruct r0 as [v|e]; [contradiction|]. cbn in H0.
    rewrite bool_decide_eq_false_2 by lia.
    unfold RATE_LIMIT_TEXT. rewrite H0.
    replace (attempt + 1)%nat with (S attempt) by lia.
    apply (IH (S attempt) fuel _ w2 rs1 r); try lia; try assumption.
    + intros i ri Hi Hri. apply (Hpre (S i)); [lia|exact Hri].
    + destruct Hstop; [left; lia|now right].
Qed.

End LoaderFacts.

(** C6 (as amended). [loadGithubRepo] makes at most three load attempts and
    waits 2000 ms after the first and 4000 ms after the second (the wait
    after attempt [n] is [min(1000 * 2^n, 10000)], never above 10000): it
    stops at the first attempt that succeeds or fails without the
    rate-limit message, or at the third, and surfaces the outcome of that
    attempt, the advice to provide a token taking the place of a rate-limit
    error.  The advice is surfaced only after three attempts; when every
    attempt is rate limited it is surfaced after exactly three. *)
Theorem loadGithubRepo_backoff {X : Type} (caps : Capabilities X)
  (githubUrl : string) (githubToken : option string) (w : World X) :
  let load := load_docs caps githubUrl githubToken in
  [waitTime 1; waitTime 2] = [2000; 4000]
  /\
  (forall attempt, waitTime attempt <= 10000)
  /\
  (exists k rs r w',
     (k <= 2)%nat /\
     attempts load (take k [2000; 4000]) w = (rs, w') /\
     length rs = S k /\
     (forall i ri, (i < k)%nat -> rs !! i = Some ri -> rate_limit_message ri) /\
     rs !! k = Some r /\
     (k = 2%nat \/ ~ rate_limit_message r) /\
     loadGithubRepo caps githubUrl githubToken w = (surfaced r, w') /\
     (surfaced r = Throw (Error TOKEN_ADVICE) -> k = 2%nat))
  /\
  ((forall w0, rate_limit_message (fst (load w0))) ->
   loadGithubRepo caps githubUrl githubToken w
     = (Throw (Error TOKEN_ADVICE), snd (attempts load [2000; 4000] w)) /\
   length (fst (attempts load [2000; 4000] w)) = 3%nat).
Proof.
  intros load.
  assert (Hmain : forall k rs r w',
    (k <= 2)%nat ->
    attempts load (take k [2000; 4000]) w = (rs, w') ->
    (forall i ri, (i < k)%nat -> rs !! i = Some ri -> rate_limit_message ri) ->
    rs !! k = Some r ->
    (k = 2%nat \/ ~ rate_limit_message r) ->
    loadGithubRepo caps githubUrl githubToken w = (surfaced r, w')).
  { intros k rs r w' Hk Hatt Hpre Hlast Hstop.
    unfold loadGithubRepo, try_catch, retry. fold load.
    rewrite (retry_loop_schedule load 3 k 1 3 w w' rs r); try lia; try assumption.
    - unfold surfaced, throw, RATE_LIMIT_TEXT. destruct r as [docs|e]; [reflexivity|].
      now destruct (includes (message e) "rate limit exceeded").
    - destruct k as [|[|[|k]]]; try lia; exact Hatt.
    - destruct Hstop; [left; lia|now right]. }
  split; [reflexivity|]. split.
  { intros attempt. unfold waitTime. lia. }
  split.
  - destruct (attempts_stop load rate_limit_message [2000; 4000] w)
      as (k & rs & w' & r & Hk & Hatt & Hpre & Hlast & Hstop).
    cbn [length] in Hk, Hstop.
    exists k, rs, r, w'. repeat split; try assumption.
    + pose proof (attempts_length load (take k [2000; 4000]) w) as Hlen.
      rewrite Hatt in Hlen. cbn [fst] in Hlen. rewrite Hlen, length_take.
      cbn [length]. lia.
    + now apply (Hmain k rs r w').
    + intros Hadvice. destruct Hstop as [Hend|Hnot]; [exact Hend|].
      exfalso. apply Hnot. unfold surfaced in Hadvice.
      destruct r as [docs|e]; [discriminate|]. cbn.
      destruct (includes (message e) "rate limit exceeded") eqn:Hinc; [reflexivity|].
      injection Hadvice as ->. vm_compute in Hinc. discriminate.
  - intros Hall.
    destruct (attempts load [2000; 4000] w) as [rs w'] eqn:Hatt.
    pose proof (attempts_length load [2000; 4000] w) as Hlen.
    rewrite Hatt in Hlen. cbn [fst length] in Hlen.
    split; [|exact Hlen].
    destruct rs as [|r0 [|r1 [|r2 [|r3 rs]]]]; try discriminate.
    assert (Hrl : rate_limit_message r0 /\ rate_limit_message r1 /\ rate_limit_message r2).
    { cbn [attempts] in Hatt.
      pose proof (Hall w) as H0. destruct (load w) as [q0 w1]. cbn [fst] in H0.
      pose proof (Hall (setTimeout 2000 w1)) as H1.
      destruct (load (setTimeout 2000 w1)) as [q1 w2]. cbn [fst] in H1.
      pose proof (Hall (setTimeout 4000 w2)) as H2.
      destruct (load (setTimeout 4000 w2)) as [q2 w3]. cbn [fst] in H2.
      injection Hatt as <- <- <- <-. auto. }
    destruct Hrl as (H0 & H1 & H2).
    rewrite (Hmain 2%nat [r0; r1; r2] r2 w'); try lia; try assumption; try reflexivity.
    + cbn [snd]. f_equal. unfold surfaced. destruct r2 as [docs|e]; [contradiction|].
      cbn in H2. now rewrite H2.
    + intros [|[|i]] ri Hi Hri; cbn in Hri; try lia; now injection Hri as <-.
Qed.

Lemma loadGithubRepo_backoff_witness :
  loadGithubRepo loader_always_limited repo_url None world0 =
    (Throw (Error TOKEN_ADVICE),
     mkWorld empty_db
       [EvLoadRepo repo_url; EvSleep 2000;
        EvLoadRepo repo_url; EvSleep 4000;
        EvLoadRepo repo_url] 3%nat).
Proof.
  destruct (loadGithubRepo_backoff loader_always_limited repo_url None world0)
    as (_ & _ & _ & Hall).
  destruct Hall as [Heq _].
  - intros w0. reflexivity.
  - rewrite Heq. reflexivity.
Defined.

(** An error without the rate-limit message ends the load at once and is
    surfaced as it is. *)
Example loadGithubRepo_other_error :
  loadGithubRepo loader_limited_then_missing repo_url None world0 =
    (Throw not_found,
     mkWorld empty_db
       [EvLoadRepo repo_url; EvSleep 2000; EvLoadRepo repo_url] 2%nat).
Proof. reflexivity. Qed.

(** With a loader that is rate limited on every attempt the first wait of
    [loadGithubRepo] is 2000 ms, not 1000 ms. *)
Lemma loadGithubRepo_first_wait_2s :
  let w' := snd (loadGithubRepo loader_always_limited repo_url None world0) in
  waits_of (timeline w') = [2000; 4000] /\
  head (waits_of (timeline w')) <> Some 1000.
Proof. vm_compute. split; [reflexivity|discriminate]. Qed.

(** ** File embedding pipeline *)

Section EmbeddingFacts.

Context {X : Type} (caps : Capabilities X).

Lemma set_summaryEmbedding_other (id : nat) (v : list Q) (rows : list EmbeddingRow) :
  Forall (fun row => (e_id row < id)%nat) rows ->
  map (set_summaryEmbedding id v) rows = rows.
Proof.
  induction 1 as [|row rows Hrow _ IH]; [reflexivity|].
  cbn [map]. rewrite IH. f_equal. unfold set_summaryEmbedding.
  destruct (Nat.eqb_spec (e_id row) id); [lia|reflexivity].
Qed.

Lemma ids_fresh_add (d : Db) (row : EmbeddingRow) :
  ids_fresh d -> e_id row = next_id d -> ids_fresh (add_embedding d row).
Proof.
  unfold ids_fresh, add_embedding. cbn. intros Hd Hrow.
  apply Forall_app. split.
  - eapply Forall_impl; [exact Hd|]. cbn. intros; lia.
  - constructor; [lia|constructor].
Qed.

(** The callback of [indexGithubRepo] for one embedded file, by the outcome
    of its two storage statements. *)
Lemma persist_embedding_spec (projectId : string) (e : Embedded) (w : World X) :
  ids_fresh (store w) ->
  persist_embedding caps projectId e w =
    let d := store w in
    let (fc, x1) := embeddingCreateFault caps (fileName e) (ext w) in
    match fc with
    | Some err => (Throw err, mkWorld d (timeline w) x1)
    | None =>
        let (fu, x2) := executeRawFault caps (next_id d) x1 in
        match fu with
        | Some err =>
            (Throw err,
             mkWorld (add_embedding d (created_row (next_id d) projectId e))
                     (timeline w) x2)
        | None =>
            (Ok tt,
             mkWorld (add_embedding d (complete_row (next_id d) projectId e))
                     (timeline w) x2)
        end
    end.
Proof.
  intros Hfresh.
  unfold persist_embedding, not_object, db_sourceCodeEmbedding_create,
    db_update_summaryEmbedding, bind, fault, get_store, put_store, ret.
  cbn zeta.
  destruct (embeddingCreateFault caps (fileName e) (ext w)) as [[err|] x1];
    [reflexivity|].
  cbn [ext store timeline e_id next_id sourceCodeEmbeddings projects commits].
  destruct (executeRawFault caps (next_id (store w)) x1) as [[err|] x2];
    [reflexivity|].
  cbn [ext store timeline e_id next_id sourceCodeEmbeddings projects commits].
  unfold add_embedding, complete_row. do 3 f_equal.
  rewrite map_app, set_summaryEmbedding_other by exact Hfresh.
  cbn [map]. unfold set_summaryEmbedding. cbn [e_id].
  now rewrite Nat.eqb_refl.
Qed.

Lemma persist_embedding_fresh (projectId : string) (e : Embedded) (w : World X) :
  ids_fresh (store w) ->
  ids_fresh (store (snd (persist_embedding caps projectId e w))).
Proof.
  intros Hfresh. rewrite persist_embedding_spec by exact Hfresh. cbn zeta.
  destruct (embeddingCreateFault caps (fileName e) (ext w)) as [[err|] x1];
    [exact Hfresh|].
  destruct (executeRawFault caps (next_id (store w)) x1) as [[err|] x2];
    cbn [snd store]; now apply ids_fresh_add.
Qed.

(** When no storage statement fails, the persistence step of
    [indexGithubRepo] appends one complete row per embedded file. *)
Lemma persist_all_no_fault (projectId : string) (es : list Embedded) :
  (forall name x, fst (embeddingCreateFault caps name x) = None) ->
  (forall id x, fst (executeRawFault caps id x) = None) ->
  forall w : World X,
    ids_fresh (store w) ->
    sourceCodeEmbeddings
      (store (snd (Promise_allSettled (map (persist_embedding caps projectId) es) w)))
    = sourceCodeEmbeddings (store w)
      ++ imap (fun i e => complete_row (next_id (store w) + i) projectId e) es.
Proof.
  intros Hc Hu. unfold Promise_allSettled.
  induction es as [|e es IH]; intros w Hfresh; cbn [map settle_all imap].
  - cbn. now rewrite app_nil_r.
  - pose proof (persist_embedding_fresh projectId e w Hfresh) as Hfresh1.
    rewrite persist_embedding_spec in * by exact Hfresh. cbn zeta in *.
    pose proof (Hc (fileName e) (ext w)) as H1.
    destruct (embeddingCreateFault caps (fileName e) (ext w)) as [fc x1].
    cbn [fst] in H1. subst fc.
    pose proof (Hu (next_id (store w)) x1) as H2.
    destruct (executeRawFault caps (next_id (store w)) x1) as [fu x2].
    cbn [fst] in H2. subst fu. cbn [snd] in Hfresh1.
    specialize (IH _ Hfresh1).
    destruct (settle_all _ _) as [rs w2]. cbn [snd] in *.
    rewrite IH. cbn [store add_embedding sourceCodeEmbeddings next_id].
    rewrite <- app_assoc. cbn [app]. rewrite Nat.add_0_r.
    do 2 f_equal. apply imap_ext. intros i e' _. cbn. f_equal. lia.
Qed.

End EmbeddingFacts.

(** C7 (as amended). For an embedded file the pipeline issues two storage
    statements: a record creation that stores summary, raw content, path and
    project id with no vector, then an UPDATE that writes the vector to that
    record.  When both succeed the table ends with one record holding all
    five values; when the UPDATE fails the record stays without its vector;
    when the creation fails nothing is stored.  With a store on which no
    statement fails, a batch ends with one complete record per file. *)
Theorem persist_embedding_two_statements {X : Type} (caps : Capabilities X)
  (projectId : string) (e : Embedded) (es : list Embedded) (w : World X) :
  ids_fresh (store w) ->
  let d := store w in
  persist_embedding caps projectId e w =
    (let (fc, x1) := embeddingCreateFault caps (fileName e) (ext w) in
     match fc with
     | Some err => (Throw err, mkWorld d (timeline w) x1)
     | None =>
         let (fu, x2) := executeRawFault caps (next_id d) x1 in
         match fu with
         | Some err =>
             (Throw err,
              mkWorld (add_embedding d (created_row (next_id d) projectId e))
                      (timeline w) x2)
         | None =>
             (Ok tt,
              mkWorld (add_embedding d (complete_row (next_id d) projectId e))
                      (timeline w) x2)
         end
     end)
  /\
  ids_fresh (store (snd (persist_embedding caps projectId e w)))
  /\
  ((forall name x, fst (embeddingCreateFault caps name x) = None) ->
   (forall id x, fst (executeRawFault caps id x) = None) ->
   sourceCodeEmbeddings
     (store (snd (Promise_allSettled (map (persist_embedding caps projectId) es) w)))
   = sourceCodeEmbeddings d
     ++ imap (fun i e0 => complete_row (next_id d + i) projectId e0) es).
Proof.
  intros Hfresh d. split; [|split].
  - now apply persist_embedding_spec.
  - now apply persist_embedding_fresh.
  - intros Hc Hu. now apply persist_all_no_fault.
Qed.

Lemma persist_embedding_two_statements_witness :
  persist_embedding update_0_fails "p1" embedded_a project_world
    = (Throw server_error,
       mkWorld (add_embedding project_db (created_row 0 "p1" embedded_a)) [] 0%nat)
  /\
  sourceCodeEmbeddings
    (store (snd (Promise_allSettled
                   (map (persist_embedding quiet "p1") [embedded_a; embedded_b])
                   project_world)))
  = [complete_row 0 "p1" embedded_a; complete_row 1 "p1" embedded_b].
Proof.
  split.
  - destruct (persist_embedding_two_statements update_0_fails "p1" embedded_a []
                project_world) as (Heq & _).
    + constructor.
    + rewrite Heq. reflexivity.
  - destruct (persist_embedding_two_statements quiet "p1" embedded_a
                [embedded_a; embedded_b] project_world) as (_ & _ & Hall).
    + constructor.
    + rewrite Hall; [reflexivity| |]; intros; reflexivity.
Defined.

(** The UPDATE of the first file fails: when [indexGithubRepo] has finished,
    the table holds a record with the summary, the source and the path of
    that file and no vector. *)
Lemma indexGithubRepo_record_without_vector :
  let r := indexGithubRepo update_0_fails "p1" repo_url None project_world in
  fst r = Ok tt /\
  sourceCodeEmbeddings (store (snd r))
    = [ mkEmbeddingRow 0 "exports a constant" "export const a = 1;" "src/a.ts" "p1" None;
        mkEmbeddingRow 1 "exports a constant" "export const b = 2;" "src/b.ts" "p1"
          (Some [1%Q; 0%Q]) ] /\
  exists row,
    row ∈ sourceCodeEmbeddings (store (snd r)) /\
    e_fileName row = source doc_a /\
    e_sourceCode row = pageContent doc_a /\
    e_summaryEmbedding row = None.
Proof.
  vm_compute. split; [reflexivity|]. split; [reflexivity|].
  eexists. split; [apply list_elem_of_here|]. repeat split.
Qed.

(** C5 (the code at the failing inputs).  With two files loaded: when the
    embedding of the first file's summary fails, [indexGithubRepo] rejects
    and no record is stored, for the second file either, although its
    summary and embedding were produced; and when the summarization of the
    first file fails and the empty summary is embedded, a record with the
    empty summary is stored for that file. *)
Theorem indexGithubRepo_not_fault_isolating :
  (let r := indexGithubRepo embedding_a_fails "p1" repo_url None project_world in
   fst r = Throw server_error /\
   sourceCodeEmbeddings (store (snd r)) = [] /\
   is_ok (fst (embed_document embedding_a_fails doc_b project_world)) = true)
  /\
  (let r := indexGithubRepo summary_a_fails "p1" repo_url None project_world in
   fst (summariseCode summary_a_fails doc_a project_world) = Ok "" /\
   fst r = Ok tt /\
   sourceCodeEmbeddings (store (snd r))
     = [ mkEmbeddingRow 0 "" "export const a = 1;" "src/a.ts" "p1" (Some [1%Q; 0%Q]);
         mkEmbeddingRow 1 "b exports a constant" "export const b = 2;" "src/b.ts" "p1"
           (Some [1%Q; 0%Q]) ]).
Proof. vm_compute. repeat split. Qed.

(** ** Vector retrieval *)

Section RetrievalFacts.

Context {X : Type} (caps : Capabilities X).

Lemma Qgtb_true (x y : Q) : Qgtb x y = true <-> (y < x)%Q.
Proof.
  unfold Qgtb. rewrite negb_true_iff, <- not_true_iff_false, Qle_bool_iff.
  split; [apply Qnot_le_lt|apply Qlt_not_le].
Qed.

Lemma Qgtb_false (x y : Q) : Qgtb x y = false <-> (x <= y)%Q.
Proof. unfold Qgtb. now rewrite negb_false_iff, Qle_bool_iff. Qed.

Lemma insert_desc_perm (x : EmbeddingRow * Q) (l : list (EmbeddingRow * Q)) :
  insert_desc x l ≡ₚ x :: l.
Proof.
  induction l as [|y l IH]; cbn [insert_desc]; [reflexivity|].
  destruct (Qgtb (snd y) (snd x)); [|reflexivity].
  rewrite IH. apply Permutation_swap.
Qed.

Lemma order_by_perm (l : list (EmbeddingRow * Q)) :
  order_by_similarity_desc l ≡ₚ l.
Proof.
  unfold order_by_similarity_desc.
  induction l as [|x l IH]; cbn [foldr]; [reflexivity|].
  now rewrite insert_desc_perm, IH.
Qed.

Lemma insert_desc_sorted (x : EmbeddingRow * Q) (l : list (EmbeddingRow * Q)) :
  StronglySorted ranks_above l -> StronglySorted ranks_above (insert_desc x l).
Proof.
  induction l as [|y l IH]; intros Hl; cbn [insert_desc].
  - repeat constructor.
  - apply StronglySorted_cons in Hl as [Hy Hl].
    destruct (Qgtb (snd y) (snd x)) eqn:Hc.
    + apply StronglySorted_cons. split; [|now apply IH].
      rewrite insert_desc_perm. constructor; [|exact Hy].
      apply Qgtb_true in Hc. now apply Qlt_le_weak.
    + apply Qgtb_false in Hc.
      apply StronglySorted_cons. split.
      * constructor; [exact Hc|].
        eapply Forall_impl; [exact Hy|]. unfold ranks_above. cbn.
        intros z Hz. eapply Qle_trans; eassumption.
      * apply StronglySorted_cons. now split.
Qed.

Lemma order_by_sorted (l : list (EmbeddingRow * Q)) :
  StronglySorted ranks_above (order_by_similarity_desc l).
Proof.
  unfold order_by_similarity_desc.
  induction l as [|x l IH]; cbn [foldr]; [constructor|].
  now apply insert_desc_sorted.
Qed.

Lemma where_clause_Some (distance : list Q -> list Q -> Q)
  (queryVector : list Q) (projectId : string)
  (row row' : EmbeddingRow) (s : Q) :
  where_clause distance queryVector projectId row = Some (row', s) <->
  row' = row /\ e_projectId row = projectId /\
  similarity distance queryVector row = Some s /\ (SIMILARITY_THRESHOLD < s)%Q.
Proof.
  unfold where_clause.
  destruct (similarity distance queryVector row) as [s0|]; [|split; [discriminate|]].
  - destruct (Qgtb s0 SIMILARITY_THRESHOLD) eqn:Hgt; cbn [andb].
    + destruct (String.eqb_spec (e_projectId row) projectId) as [Hp|Hp].
      * apply Qgtb_true in Hgt. split.
        -- intros [= <- <-]. auto.
        -- intros (-> & _ & [= ->] & _). reflexivity.
      * split; [discriminate|]. intros (_ & Hp' & _). contradiction.
    + split; [discriminate|]. intros (_ & _ & [= ->] & Hlt).
      apply Qgtb_false in Hgt. exfalso. eapply Qlt_not_le; eassumption.
  - intros (_ & _ & H & _). discriminate.
Qed.

Lemma similarity_Some (distance : list Q -> list Q -> Q)
  (queryVector : list Q) (row : EmbeddingRow) (s : Q) :
  similarity distance queryVector row = Some s <->
  exists v, e_summaryEmbedding row = Some v /\ s = (1 - distance v queryVector)%Q.
Proof.
  unfold similarity. destruct (e_summaryEmbedding row) as [v|].
  - split.
    + intros [= <-]. now exists v.
    + intros (v' & [= <-] & ->). reflexivity.
  - split; [discriminate|]. intros (v & Hv & _). discriminate.
Qed.

(** What the statement was written for.  On a database that resolves the
    operator of the statement to [distance], and when the statement does not
    fail, the search returns the path, source, summary and similarity of
    [rows], where [rows] followed by some [rest] is a list of exactly the
    stored records of the project that have a vector [v] with
    [1 - distance v q] strictly above 0.5 (each once per stored record), in
    descending order of that similarity, and [rows] is its first ten
    elements. *)
Lemma performVectorSearch_resolved (distance : list Q -> list Q -> Q)
  (queryVector : list Q) (projectId : string) (w : World X) :
  vectorOperator caps DISTANCE_OPERATOR = Some distance ->
  fst (queryRawFault caps projectId (ext w)) = None ->
  let table := sourceCodeEmbeddings (store w) in
  exists rows rest : list (EmbeddingRow * Q),
    fst (performVectorSearch caps queryVector projectId w)
      = Ok (map (fun p => mkSourceCodeResult (e_fileName (fst p))
                            (e_sourceCode (fst p)) (e_summary (fst p)) (snd p))
                rows) /\
    store (snd (performVectorSearch caps queryVector projectId w)) = store w /\
    rows ++ rest ≡ₚ omap (where_clause distance queryVector projectId) table /\
    (forall row s,
       (row, s) ∈ rows ++ rest <->
       row ∈ table /\ e_projectId row = projectId /\
       (exists v, e_summaryEmbedding row = Some v /\
                  s = (1 - distance v queryVector)%Q) /\
       (1 # 2 < s)%Q) /\
    StronglySorted ranks_above (rows ++ rest) /\
    length rows = Nat.min 10 (length (rows ++ rest)).
Proof.
  intros Hop Hfault table.
  unfold performVectorSearch, queryRaw_select, try_catch, bind, fault,
    get_store, ret, throw.
  rewrite Hop.
  destruct (queryRawFault caps projectId (ext w)) as [o x1]. cbn [fst] in Hfault.
  subst o. cbn [fst snd store timeline].
  set (sorted := order_by_similarity_desc
                   (omap (where_clause distance queryVector projectId) table)).
  exists (take MAX_RESULTS sorted), (drop MAX_RESULTS sorted).
  rewrite take_drop. split; [reflexivity|]. split; [reflexivity|].
  split; [apply order_by_perm|]. split; [|split].
  - intros row s. unfold sorted. rewrite order_by_perm, list_elem_of_omap.
    rewrite <- similarity_Some. split.
    + intros (row0 & Hin & Hw).
      apply where_clause_Some in Hw as (-> & Hp & Hs & Hlt). auto.
    + intros (Hin & Hp & Hs & Hlt). exists row. split; [exact Hin|].
      apply where_clause_Some. auto.
  - apply order_by_sorted.
  - apply length_take.
Qed.

End RetrievalFacts.

(** C2. On a database whose operators between vectors are those of
    pgvector, the statement of [performVectorSearch] is refused for its
    operator [<==>], which is none of them, whatever the table holds: for
    every query vector and every project the search rejects with "Failed to
    search codebase", returns no record and leaves the store as it is. *)
Theorem performVectorSearch_operator_undefined {X : Type} (caps : Capabilities X)
  (queryVector : list Q) (projectId : string) (w : World X) :
  (forall symbol, symbol ∉ pgvector_operators -> vectorOperator caps symbol = None) ->
  performVectorSearch caps queryVector projectId w
    = (Throw (Error "Failed to search codebase"),
       mkWorld (store w) (timeline w)
         (snd (queryRawFault caps projectId (ext w)))).
Proof.
  intros Hdb.
  assert (Hop : vectorOperator caps DISTANCE_OPERATOR = None).
  { apply Hdb. unfold DISTANCE_OPERATOR, pgvector_operators.
    intros Hin. repeat (apply elem_of_cons in Hin as [Heq|Hin]; [discriminate|]).
    now apply elem_of_nil in Hin. }
  unfold performVectorSearch, queryRaw_select, try_catch, bind, fault, throw.
  rewrite Hop.
  destruct (queryRawFault caps projectId (ext w)) as [[err|] x1]; reflexivity.
Qed.

Lemma performVectorSearch_operator_undefined_witness :
  performVectorSearch pgvector_only [1%Q] "p1" (mkWorld five_files [] 0%nat)
  = (Throw (Error "Failed to search codebase"), mkWorld five_files [] 0%nat).
Proof.
  apply (performVectorSearch_operator_undefined pgvector_only [1%Q] "p1"
           (mkWorld five_files [] 0%nat)).
  intros symbol Hnot. cbn.
  now rewrite (bool_decide_eq_false_2 _ Hnot).
Defined.

(** The five files of the retrieval example on a database that resolves the
    operator: the files of similarity 0.9 and 0.6 are returned in that order,
    and the file whose similarity is exactly 0.5 is not above the threshold. *)
Example performVectorSearch_five_files :
  fst (performVectorSearch stored_distance [1%Q] "p1" (mkWorld five_files [] 0%nat))
  = Ok [ mkSourceCodeResult "E1" "code of E1" "summary of E1" (1 - (1 # 10));
         mkSourceCodeResult "E4" "code of E4" "summary of E4" (1 - (4 # 10)) ].
Proof. reflexivity. Qed.

(** ** Question answering *)

Lemma for_await_update_spec (textStream : TextStream) (s : Streamable) :
  for_await_update textStream s =
    (match failure textStream with
     | None => Ok tt
     | Some e => Throw e
     end, s ++ (SUpdate <$> chunks textStream)).
Proof.
  unfold for_await_update.
  assert (H : forall l acc,
    foldl (fun acc delta => stream_update delta acc) acc l = acc ++ (SUpdate <$> l)).
  { induction l as [|d l IH]; intros acc; cbn [foldl fmap list_fmap].
    - now rewrite app_nil_r.
    - rewrite IH. unfold stream_update. now rewrite <- app_assoc. }
  rewrite H. now destruct (failure textStream).
Qed.

(** C8. When the question is embedded and the search succeeds, the stream
    [askQuestion] returns delivers one update per chunk of the completion, in
    order, followed by exactly one terminal event, which is the last event:
    [SDone] when the completion ended normally, [SError] with the error of
    the completion when it failed after its chunks, and [SError] alone when
    it could not be started.  So the last event tells error from completion. *)
Theorem askQuestion_stream {X : Type} (caps : Capabilities X)
  (question projectId : string) (w : World X) :
  match bind (generateEmbedding caps question)
             (fun queryVector => performVectorSearch caps queryVector projectId) w with
  | (Throw e, w1) => askQuestion caps question projectId w = (Throw e, w1)
  | (Ok results, w1) =>
      let prompt := generatePrompt (formatContext results) question in
      let completion := fst (generateContentStream caps prompt (ext w1)) in
      exists w2,
        askQuestion caps question projectId w =
          (Ok (mkQuestionResponse
                 ((SUpdate <$> delivered completion) ++ [terminal_event completion])
                 results), w2) /\
        last (output (mkQuestionResponse
                 ((SUpdate <$> delivered completion) ++ [terminal_event completion])
                 results)) = Some (terminal_event completion) /\
        is_terminal (terminal_event completion) = true /\
        Forall (fun ev => is_terminal ev = false) (SUpdate <$> delivered completion) /\
        (terminal_event completion = SDone <->
         exists textStream, completion = Ok textStream /\ failure textStream = None)
  end.
Proof.
  unfold askQuestion.
  destruct (bind _ _ w) as [[results|e] w1]; [|reflexivity].
  cbn zeta. unfold stream_answer, streamText, try_catch, bind, call, ret, throw,
    createStreamableValue, stream_done, stream_error.
  destruct (generateContentStream caps _ (ext w1)) as [[textStream|e] x2];
    cbn [fst delivered terminal_event].
  - rewrite for_await_update_spec. cbn [app].
    destruct (failure textStream) as [e|] eqn:Hf; eexists;
      (split; [reflexivity|]); cbn [output]; rewrite last_snoc;
      (split; [reflexivity|]); (split; [reflexivity|]);
      (split; [apply Forall_fmap, Forall_true; reflexivity|]).
    + split; [discriminate|]. intros (ts & [= <-] & Hn). congruence.
    + split; [|reflexivity]. intros _. eauto.
  - eexists. split; [reflexivity|]. cbn [output fmap list_fmap app last].
    repeat split; try constructor; try discriminate.
    intros (ts & Hts & _). discriminate.
Qed.

(** The stream of the integrity example: three chunks, then the error. *)
Example askQuestion_three_chunks_then_error :
  exists w2,
    askQuestion stream_breaks "where is the home page?" "p1" project_world =
      (Ok (mkQuestionResponse
             [SUpdate "Hel"; SUpdate "lo, "; SUpdate " world"; SError server_error]
             []), w2).
Proof. eexists. reflexivity. Qed.

(** ** Concurrency limiter *)

Section LimiterFacts.

Import Limiter.

Variable n : nat.










End LimiterFacts.


(** Twenty submissions: five run, fifteen wait in order; when two settle,
    the next two in line start. *)
Example limiter_twenty_tasks :
  Limiter.running (Limiter.run MAX_CONCURRENT twenty_submissions) = [0; 1; 2; 3; 4]%nat /\
  Limiter.queue (Limiter.run MAX_CONCURRENT twenty_submissions) = seq 5 15 /\
  Limiter.running
    (Limiter.run MAX_CONCURRENT
       (twenty_submissions ++ [Limiter.Settle 3; Limiter.Settle 0]))
  = [1; 2; 4; 5; 6]%nat.
Proof. vm_compute. repeat split. Qed.

(** * Further theorems *)

(** ** Commit ingestion: failures, appends and pauses *)

Section IngestionMore.

Context {X : Type} (caps : Capabilities X).

Lemma fetchProjectGithubUrl_cases (projectId : string) (w : World X) :
  (List.find (fun p => String.eqb (project_id p) projectId) (projects (store w)) = None /\
   fetchProjectGithubUrl projectId w
     = (Throw (Error ("Project with ID " +:+ projectId +:+ " not found.")), w))
  \/
  (exists p,
     p ∈ projects (store w) /\ project_id p = projectId /\
     fetchProjectGithubUrl projectId w = (Ok (githubUrl p), w)).
Proof.
  unfold fetchProjectGithubUrl, bind, get_store, throw, ret.
  destruct (List.find _ _) as [p|] eqn:Hfind; [right|left; auto].
  apply find_some in Hfind as [Hin Heq].
  exists p. repeat split; [now apply list_elem_of_In|now apply String.eqb_eq].
Qed.

Lemma pollCommits_no_project (projectId : string) (e : JsError) (w : World X) :
  fetchProjectGithubUrl projectId w = (Throw e, w) ->
  pollCommits caps projectId w = (Throw e, w).
Proof.
  intros H. unfold pollCommits, try_catch. unfold bind at 1. now rewrite H.
Qed.

Lemma pollCommits_no_listing (projectId githubUrl : string) (e : JsError)
  (w wl : World X) :
  fetchProjectGithubUrl projectId w = (Ok githubUrl, w) ->
  getCommitHashes caps githubUrl w = (Throw e, wl) ->
  pollCommits caps projectId w = (Throw e, wl).
Proof.
  intros H1 H2. unfold pollCommits, try_catch. unfold bind at 1. rewrite H1.
  unfold bind at 1. now rewrite H2.
Qed.

Lemma waits_of_app (a b : list Event) : waits_of (a ++ b) = waits_of a ++ waits_of b.
Proof. apply omap_app. Qed.

Lemma waits_of_pauses (n : nat) (ms : Z) :
  waits_of (replicate n (EvSleep ms)) = replicate n ms.
Proof. induction n as [|n IH]; cbn; [reflexivity|]. f_equal. exact IH. Qed.

Lemma pauses_step (m : nat) : (0 < m)%nat -> ((m + 2) / 3 = S ((m - 3 + 2) / 3))%nat.
Proof.
  intros Hm. destruct (Nat.le_gt_cases 3 m) as [H3|H3].
  - replace (m + 2)%nat with ((m - 3 + 2) + 1 * 3)%nat by lia.
    rewrite Nat.div_add by lia. lia.
  - destruct m as [|[|[|m]]]; try lia; reflexivity.
Qed.

(** The loop of batches pauses once per batch of three. *)
Lemma batch_loop_timeline (projectId : string) (vs : list Summarized) :
  forall (fuel i : nat) (results : list CommitRow) (w : World X),
    (length vs - i <= fuel)%nat ->
    timeline (snd (batch_loop caps fuel projectId vs i results w))
      = timeline w ++ replicate ((length vs - i + 2) / 3) (EvSleep 500).
Proof.
  induction fuel as [|fuel IH]; intros i results w Hfuel.
  - cbn [batch_loop]. replace (length vs - i)%nat with 0%nat by lia.
    cbn. now rewrite app_nil_r.
  - cbn [batch_loop]. case_bool_decide as Hi.
    + unfold bind at 1. rewrite store_batch_spec.
      destruct (stored_rows caps projectId (take batchSize (drop i vs)) (ext w))
        as [rows1 x1].
      unfold bind, sleep. rewrite IH by (unfold batchSize; lia).
      cbn [timeline setTimeout]. rewrite (pauses_step (length vs - i)) by lia.
      unfold batchSize. replace (length vs - (i + 3))%nat with (length vs - i - 3)%nat by lia.
      cbn [replicate]. now rewrite <- app_assoc.
    + replace (length vs - i)%nat with 0%nat by lia.
      cbn. now rewrite app_nil_r.
Qed.

Lemma list_filter_bool {A} (f : A -> bool) (P : A -> Prop)
  `{!forall x, Decision (P x)} (l : list A) :
  (forall x, f x = true <-> P x) -> List.filter f l = filter P l.
Proof.
  intros Hf. induction l as [|x l IH]; [reflexivity|].
  cbn [List.filter]. rewrite filter_cons.
  destruct (f x) eqn:Hx; destruct (decide (P x)) as [HP|HP].
  - now rewrite IH.
  - exfalso. apply HP. now apply Hf.
  - apply Hf in HP. congruence.
  - exact IH.
Qed.

End IngestionMore.

(** X1. [pollCommits] for a project id that no stored project has rejects
    with "Project with ID ... not found." and leaves the world as it was: no
    service is called and nothing is stored. *)
Theorem pollCommits_missing_project {X : Type} (caps : Capabilities X)
  (projectId : string) (w : World X) :
  Forall (fun p => project_id p <> projectId) (projects (store w)) ->
  pollCommits caps projectId w
    = (Throw (Error ("Project with ID " +:+ projectId +:+ " not found.")), w).
Proof.
  intros Hnone. apply pollCommits_no_project.
  destruct (fetchProjectGithubUrl_cases projectId w)
    as [[_ H]|(p & Hin & Hid & _)]; [exact H|].
  exfalso. eapply Forall_forall in Hnone; eauto.
Qed.

Lemma pollCommits_missing_project_witness :
  pollCommits quiet "p2" project_world
    = (Throw (Error "Project with ID p2 not found."), project_world).
Proof.
  apply (pollCommits_missing_project quiet "p2" project_world).
  repeat constructor. discriminate.
Defined.

(** X2. Whatever the services and the store do, a run of [pollCommits] only
    appends rows of its project to the commit table: the rows that were
    there, the projects and the embeddings stay as they are; a run that
    fulfils returns exactly the rows it appended, and a run that rejects has
    appended none. *)
Theorem pollCommits_appends_only {X : Type} (caps : Capabilities X)
  (projectId : string) (w : World X) :
  exists new,
    store (snd (pollCommits caps projectId w)) = add_commits (store w) new /\
    Forall (fun row => c_projectId row = projectId) new /\
    match fst (pollCommits caps projectId w) with
    | Ok rows => rows = new
    | Throw _ => new = []
    end.
Proof.
  destruct (fetchProjectGithubUrl_cases projectId w)
    as [[_ H]|(p & _ & _ & Hp)].
  - rewrite (pollCommits_no_project caps _ _ _ H). exists []. cbn.
    now rewrite add_commits_nil.
  - destruct (getCommitHashes caps (githubUrl p) w) as [[listing|e] wl] eqn:Hl.
    + destruct (pollCommits_new_rows caps projectId (githubUrl p) listing w wl Hp Hl)
        as (new & w2 & Hrun & Hstore & Hpid & _).
      exists new. rewrite Hrun. cbn. auto.
    + rewrite (pollCommits_no_listing caps _ _ _ _ _ Hp Hl). exists []. cbn.
      rewrite add_commits_nil. repeat split; auto.
      pose proof (getCommitHashes_store caps (githubUrl p) w) as Hst.
      now rewrite Hl in Hst.
Qed.

(** X3. When the listing of commits is rate limited on every call,
    [pollCommits] asks for it five times, waiting 1000, 2000, 4000 and
    8000 ms in between, then rejects with the rate-limit error; it requests
    no diff and stores nothing. *)
Theorem pollCommits_listing_rate_limited {X : Type} (caps : Capabilities X)
  (projectId githubUrl : string) (w : World X) :
  fetchProjectGithubUrl projectId w = (Ok githubUrl, w) ->
  (forall x, rate_limited_failure (fst (listRecentCommits caps githubUrl x))) ->
  exists e w',
    pollCommits caps projectId w = (Throw e, w') /\
    status_is_429 e = true /\
    store w' = store w /\
    timeline w' =
      timeline w ++
      [EvListCommits githubUrl; EvSleep 1000;
       EvListCommits githubUrl; EvSleep 2000;
       EvListCommits githubUrl; EvSleep 4000;
       EvListCommits githubUrl; EvSleep 8000;
       EvListCommits githubUrl].
Proof.
  intros Hproject Hlimited.
  assert (Hl : exists e w',
    getCommitHashes caps githubUrl w = (Throw e, w') /\
    status_is_429 e = true /\
    store w' = store w /\
    timeline w' =
      timeline w ++
      [EvListCommits githubUrl; EvSleep 1000;
       EvListCommits githubUrl; EvSleep 2000;
       EvListCommits githubUrl; EvSleep 4000;
       EvListCommits githubUrl; EvSleep 8000;
       EvListCommits githubUrl]).
  { unfold getCommitHashes, withRetry.
    cbn [length RETRY_DELAYS Nat.sub withRetry_loop].
    unfold call, setTimeout. cbn [ext store timeline].
    repeat match goal with
    | |- context [listRecentCommits caps githubUrl ?x] =>
        let H := fresh "H" in
        pose proof (Hlimited x) as H;
        destruct (listRecentCommits caps githubUrl x) as [[?|?] ?];
        cbn [fst rate_limited_failure] in H; [contradiction|];
        cbn [ext store timeline]; rewrite H;
        cbn [andb nth Nat.add ext store timeline]
    end.
    repeat match goal with
    | |- context [bool_decide ?P] => rewrite (bool_decide_eq_true_2 P) by (cbn; lia)
    | |- context [bool_decide ?P] => rewrite (bool_decide_eq_false_2 P) by (cbn; lia)
    end.
    eexists _, _. split; [reflexivity|]. split; [assumption|].
    split; [reflexivity|]. cbn [timeline]. rewrite <- !app_assoc. reflexivity. }
  destruct Hl as (e & w' & Hrun & H429 & Hst & Htl).
  exists e, w'. split; [|auto].
  now apply (pollCommits_no_listing caps projectId githubUrl).
Qed.

Lemma pollCommits_listing_rate_limited_witness :
  exists e w',
    pollCommits listing_always_limited "p1" project_world = (Throw e, w') /\
    status_is_429 e = true /\
    store w' = project_db /\
    timeline w' =
      [EvListCommits repo_url; EvSleep 1000;
       EvListCommits repo_url; EvSleep 2000;
       EvListCommits repo_url; EvSleep 4000;
       EvListCommits repo_url; EvSleep 8000;
       EvListCommits repo_url].
Proof.
  apply (pollCommits_listing_rate_limited listing_always_limited "p1" repo_url
           project_world).
  - reflexivity.
  - intros x. reflexivity.
Defined.

(** X4. A run of [pollCommits] that reaches the store pauses 500 ms after
    every batch of three rows it tried to store and waits for nothing else
    after the listing: with [n] unprocessed commits it pauses [ceil(n / 3)]
    times, and not at all when nothing is unprocessed. *)
Theorem pollCommits_pauses {X : Type} (caps : Capabilities X)
  (projectId githubUrl : string) (listing : list Response) (w wl : World X) :
  fetchProjectGithubUrl projectId w = (Ok githubUrl, w) ->
  getCommitHashes caps githubUrl w = (Ok listing, wl) ->
  let n := length (unprocessed projectId (store w) listing) in
  waits_of (timeline (snd (pollCommits caps projectId w)))
    = waits_of (timeline wl) ++ replicate ((n + 2) / 3) 500.
Proof.
  intros Hproject Hlisting n.
  assert (Hwl : store wl = store w).
  { pose proof (getCommitHashes_store caps githubUrl w) as H.
    now rewrite Hlisting in H. }
  destruct (summarize_all_result caps githubUrl
              (unprocessed projectId (store w) listing) wl)
    as (sums & w1 & Hall & Hsums & _).
  pose proof (summarize_all_requests caps githubUrl
                (unprocessed projectId (store w) listing) wl) as Hreq.
  rewrite Hall in Hreq. cbn zeta in Hreq. cbn [snd] in Hreq.
  destruct Hreq as [Hwaits _].
  assert (Hn : length sums = n).
  { unfold n. rewrite <- Hsums. now rewrite length_fmap. }
  unfold pollCommits, try_catch. unfold bind at 1. rewrite Hproject.
  unfold bind at 1. rewrite Hlisting.
  unfold bind at 1. rewrite filterUnprocessedCommits_spec, Hwl.
  case_bool_decide as Hemp.
  - fold n in Hemp. rewrite Hemp. cbn. now rewrite app_nil_r.
  - unfold bind. rewrite Hall, omap_id_Some.
    pose proof (batch_loop_timeline caps projectId sums (length sums) 0 [] w1) as Htl.
    destruct (batch_loop caps (length sums) projectId sums 0 [] w1) as [[rows|e] w2];
      cbn [snd] in *; unfold throw; cbn [snd];
      rewrite Htl by lia; rewrite waits_of_app, waits_of_pauses, Hwaits;
      now rewrite Nat.sub_0_r, Hn.
Qed.

Lemma pollCommits_pauses_witness :
  waits_of (timeline (snd (pollCommits quiet "p1" project_world))) = [500; 500].
Proof.
  apply (pollCommits_pauses quiet "p1" repo_url five_commits project_world
           (mkWorld project_db [EvListCommits repo_url] 0%nat)); reflexivity.
Defined.

(** The test of the first revision, [!processedCommits.some(...)], holds
    exactly for the hashes that are not stored for the project. *)
Lemma stored_hash_test (projectId : string) (d : Db) (c : Response) :
  negb (existsb
          (fun processedCommit =>
             String.eqb (c_commitHash processedCommit) (commitHash c))
          (filter (fun row => c_projectId row = projectId) (commits d))) = true
  <-> commitHash c ∉ findMany_commitHash projectId d.
Proof.
  rewrite negb_true_iff, <- not_true_iff_false.
  unfold findMany_commitHash. apply not_iff_compat.
  rewrite existsb_exists. change map with (@fmap list _) at 1.
  rewrite list_elem_of_fmap. split.
  - intros (row & Hin & Heq). apply String.eqb_eq in Heq.
    exists row. split; [now symmetry|now apply list_elem_of_In].
  - intros (row & Heq & Hin). exists row.
    split; [now apply list_elem_of_In|]. apply String.eqb_eq. now symmetry.
Qed.

Lemma filterUnprocessedCommits_v1_spec {X : Type} (projectId : string)
  (commitHashes : list Response) (w : World X) :
  filterUnprocessedCommits_v1 projectId commitHashes w
    = (Ok (unprocessed projectId (store w) commitHashes), w).
Proof.
  unfold filterUnprocessedCommits_v1, unprocessed, bind, get_store, ret.
  do 2 f_equal. apply list_filter_bool. intros c. apply stored_hash_test.
Qed.

(** X5. The first revision of [filterUnprocessedCommits], which looks each
    listed hash up in the stored rows with [some], and the later one, which
    builds a [Set] of the stored hashes, return the same commits for every
    listing and store. *)
Theorem filterUnprocessedCommits_revisions_agree {X : Type}
  (projectId : string) (commitHashes : list Response) (w : World X) :
  filterUnprocessedCommits_v1 projectId commitHashes w
    = filterUnprocessedCommits projectId commitHashes w.
Proof.
  unfold filterUnprocessedCommits_v1, filterUnprocessedCommits, bind,
    get_store, ret.
  do 2 f_equal. apply list_filter_bool. intros c.
  rewrite elem_of_list_to_set. apply stored_hash_test.
Qed.

(** ** The listing of commits *)

Lemma split_on_not_nil (sep : ascii) (s : string) : split_on sep s <> [].
Proof.
  destruct s as [|c s]; cbn; [discriminate|].
  destruct (Ascii.eqb c sep); [discriminate|].
  destruct (split_on sep s); discriminate.
Qed.

Lemma split_on_app (sep : ascii) (a b : string) :
  split_on sep (a +:+ String sep b) = split_on sep a ++ split_on sep b.
Proof.
  induction a as [|c a IH]; simpl.
  - now rewrite Ascii.eqb_refl.
  - rewrite IH. destruct (Ascii.eqb c sep); [reflexivity|].
    pose proof (split_on_not_nil sep a) as Hne.
    destruct (split_on sep a) as [|p ps]; [contradiction|reflexivity].
Qed.

Lemma split_on_free (sep : ascii) (s : string) :
  Forall (fun c => c <> sep) (list_ascii_of_string s) -> split_on sep s = [s].
Proof.
  induction s as [|c s IH]; cbn [list_ascii_of_string split_on]; [reflexivity|].
  intros H. apply Forall_cons in H as [Hc Hs].
  apply Ascii.eqb_neq in Hc. rewrite Hc, (IH Hs). reflexivity.
Qed.

Lemma falsy_false (s : string) : s <> "" -> falsy s = false.
Proof. destruct s; [contradiction|reflexivity]. Qed.

Lemma last_two_app {A} (l : list A) (x y : A) :
  drop (length (l ++ [x; y]) - 2) (l ++ [x; y]) = [x; y].
Proof.
  rewrite length_app. cbn [length].
  replace (length l + 2 - 2)%nat with (length l) by lia.
  now rewrite drop_app_length.
Qed.

Section ListingFacts.

Context {X : Type} (getTime : string -> Z)
  (listCommits : string -> string -> X -> Res (list GhCommit) * X).

Lemma insert_newest_perm (x : GhCommit) (l : list GhCommit) :
  insert_newest getTime x l ≡ₚ x :: l.
Proof.
  induction l as [|y l IH]; cbn [insert_newest]; [reflexivity|].
  destruct (Z.ltb _ _); [|reflexivity].
  rewrite IH. apply Permutation_swap.
Qed.

Lemma sort_newest_first_perm (l : list GhCommit) :
  sort_newest_first getTime l ≡ₚ l.
Proof.
  unfold sort_newest_first.
  induction l as [|x l IH]; cbn [foldr]; [reflexivity|].
  now rewrite insert_newest_perm, IH.
Qed.

Lemma insert_newest_sorted (x : GhCommit) (l : list GhCommit) :
  StronglySorted (newer_or_same getTime) l ->
  StronglySorted (newer_or_same getTime) (insert_newest getTime x l).
Proof.
  induction l as [|y l IH]; intros Hl; cbn [insert_newest].
  - repeat constructor.
  - apply StronglySorted_cons in Hl as [Hy Hl].
    destruct (Z.ltb_spec (author_time getTime x) (author_time getTime y)) as [Hlt|Hge].
    + apply StronglySorted_cons. split; [|now apply IH].
      rewrite insert_newest_perm. constructor; [|exact Hy].
      unfold newer_or_same. lia.
    + apply StronglySorted_cons. split.
      * constructor; [exact Hge|].
        eapply Forall_impl; [exact Hy|]. unfold newer_or_same. cbn. intros; lia.
      * apply StronglySorted_cons. now split.
Qed.

Lemma sort_newest_first_sorted (l : list GhCommit) :
  StronglySorted (newer_or_same getTime) (sort_newest_first getTime l).
Proof.
  unfold sort_newest_first.
  induction l as [|x l IH]; cbn [foldr]; [constructor|].
  now apply insert_newest_sorted.
Qed.

End ListingFacts.

(** X6. The owner and the repository are read back from a url that ends in
    [/owner/repo]: whatever precedes, when [owner] and [repo] are not empty
    and hold no slash, the split of [getCommitHashes] yields exactly them. *)
Theorem owner_and_repo_round_trip (base owner repo : string) :
  slash_free owner -> slash_free repo -> owner <> "" -> repo <> "" ->
  owner_and_repo (base +:+ "/" +:+ owner +:+ "/" +:+ repo) = Some (owner, repo).
Proof.
  intros Ho Hr Hoe Hre. unfold owner_and_repo. cbn zeta.
  change ("/" +:+ owner +:+ "/" +:+ repo)
    with (String "/"%char (owner +:+ String "/"%char repo)).
  rewrite !split_on_app, (split_on_free _ owner Ho), (split_on_free _ repo Hr).
  change ([owner] ++ [repo]) with [owner; repo].
  rewrite last_two_app, (falsy_false _ Hoe), (falsy_false _ Hre). reflexivity.
Qed.

Lemma owner_and_repo_round_trip_witness :
  owner_and_repo "https://github.com/ProdigyRahul/Codojo"
    = Some ("ProdigyRahul", "Codojo").
Proof.
  apply (owner_and_repo_round_trip "https://github.com" "ProdigyRahul" "Codojo").
  - repeat constructor; discriminate.
  - repeat constructor; discriminate.
  - discriminate.
  - discriminate.
Defined.

(** X7. A url that ends in a slash, or that holds no slash at all, is an
    invalid GitHub url; for every invalid url [getCommitHashes] rejects with
    "Invalid GitHub URL" at once: the listing service is not called and
    [withRetry] does not wait. *)
Theorem getCommitHashes_invalid_url {X : Type} (getTime : string -> Z)
  (listCommits : string -> string -> X -> Res (list GhCommit) * X)
  (githubUrl : string) (w : World X) :
  owner_and_repo (githubUrl +:+ "/") = None /\
  (slash_free githubUrl -> owner_and_repo githubUrl = None) /\
  (owner_and_repo githubUrl = None ->
   getCommitHashes_written_out getTime listCommits githubUrl w
     = (Throw (Error "Invalid GitHub URL"), w)).
Proof.
  split; [|split].
  - unfold owner_and_repo. cbn zeta.
    change (githubUrl +:+ "/") with (githubUrl +:+ String "/"%char "").
    rewrite split_on_app. cbn [split_on].
    pose proof (split_on_not_nil "/"%char githubUrl) as Hne.
    destruct (split_on "/"%char githubUrl) as [|p ps] using rev_ind;
      [contradiction|].
    rewrite <- app_assoc. cbn [app]. rewrite last_two_app. cbn [falsy].
    now rewrite orb_true_r.
  - intros Hfree. unfold owner_and_repo. cbn zeta.
    rewrite (split_on_free _ _ Hfree). reflexivity.
  - intros Hnone. unfold getCommitHashes_written_out, withRetry, getCommitHashes_body.
    rewrite Hnone. reflexivity.
Qed.

Lemma getCommitHashes_invalid_url_witness :
  getCommitHashes_written_out day_number list_three "github" world0
    = (Throw (Error "Invalid GitHub URL"), world0).
Proof.
  destruct (getCommitHashes_invalid_url day_number list_three "github" world0)
    as (_ & Hfree & Hreject).
  apply Hreject, Hfree. repeat constructor; discriminate.
Defined.

(** X8. For a valid url whose listing succeeds, [getCommitHashes] returns
    one [Response] per listed commit, newest author date first (a commit
    without a date counts as time 0), with the sha as [commitHash] and a
    missing message, author name, avatar or date read as the empty string;
    it calls the listing once and does not wait. *)
Theorem getCommitHashes_newest_first {X : Type} (getTime : string -> Z)
  (listCommits : string -> string -> X -> Res (list GhCommit) * X)
  (githubUrl owner repo : string) (data : list GhCommit) (x1 : X) (w : World X) :
  owner_and_repo githubUrl = Some (owner, repo) ->
  listCommits owner repo (ext w) = (Ok data, x1) ->
  exists sorted,
    getCommitHashes_written_out getTime listCommits githubUrl w
      = (Ok (to_response <$> sorted),
         mkWorld (store w) (timeline w ++ [EvListCommits githubUrl]) x1) /\
    sorted ≡ₚ data /\
    StronglySorted (newer_or_same getTime) sorted /\
    commitHash <$> (to_response <$> sorted) = sha <$> sorted /\
    Forall (fun c => commitMessage (to_response c) = or_empty (gh_message c) /\
                     commitDate (to_response c) = or_empty (gh_author_date c)) sorted.
Proof.
  intros Hurl Hlist. exists (sort_newest_first getTime data).
  split; [|split; [apply sort_newest_first_perm|split;
                   [apply sort_newest_first_sorted|split]]].
  - unfold getCommitHashes_written_out, withRetry, getCommitHashes_body.
    rewrite Hurl. cbn [length RETRY_DELAYS Nat.sub withRetry_loop].
    unfold bind, call, ret. now rewrite Hlist.
  - rewrite <- list_fmap_compose. reflexivity.
  - apply Forall_true. intros c. split; reflexivity.
Qed.

Lemma getCommitHashes_newest_first_witness :
  exists sorted,
    getCommitHashes_written_out day_number list_three "https://github.com/o/r" world0
      = (Ok (to_response <$> sorted),
         mkWorld empty_db [EvListCommits "https://github.com/o/r"] 1%nat) /\
    sorted ≡ₚ [gh_old; gh_undated; gh_new] /\
    StronglySorted (newer_or_same day_number) sorted /\
    commitHash <$> (to_response <$> sorted) = sha <$> sorted /\
    Forall (fun c => commitMessage (to_response c) = or_empty (gh_message c) /\
                     commitDate (to_response c) = or_empty (gh_author_date c)) sorted.
Proof.
  exact (getCommitHashes_newest_first day_number list_three
           "https://github.com/o/r" "o" "r"
           [gh_old; gh_undated; gh_new] 1%nat world0 eq_refl eq_refl).
Defined.

(** The three commits of the example, newest first, the undated one last. *)
Example getCommitHashes_three_commits :
  fst (getCommitHashes_written_out day_number list_three
         "https://github.com/o/r" world0)
  = Ok [ mkResponse "s3" "third" "cy" "https://a/cy.png" "7";
         mkResponse "s1" "first" "ann" "" "3";
         mkResponse "s2" "" "" "" "" ].
Proof. reflexivity. Qed.

(** ** File embedding pipeline: summaries, embeddings and rows *)

Lemma substring_0_length (m : nat) (s : string) :
  String.length (String.substring 0 m s) = Nat.min m (String.length s).
Proof.
  revert m. induction s as [|c s IH]; intros [|m]; cbn; try reflexivity.
  now rewrite IH.
Qed.

Lemma substring_0_prefix (m : nat) (s : string) :
  String.prefix (String.substring 0 m s) s = true.
Proof.
  revert m. induction s as [|c s IH]; intros [|m]; cbn; try reflexivity.
  destruct (ascii_dec c c); [apply IH|contradiction].
Qed.

Lemma substring_0_all (m : nat) (s : string) :
  (String.length s <= m)%nat -> String.substring 0 m s = s.
Proof.
  revert m. induction s as [|c s IH]; intros [|m] Hlen; cbn in *;
    try reflexivity; try lia.
  rewrite IH by lia. reflexivity.
Qed.

Section EmbeddingMore.

Context {X : Type} (caps : Capabilities X).

Lemma summariseCode_spec (doc : Document) (w : World X) :
  let parts :=
    summary_prompt doc (String.substring 0 (Z.to_nat 10000) (pageContent doc)) in
  summariseCode caps doc w =
    (Ok (match fst (generateContent caps parts (ext w)) with
         | Ok text => text
         | Throw _ => ""
         end),
     mkWorld (store w) (timeline w ++ [EvGenerateContent parts])
             (snd (generateContent caps parts (ext w)))).
Proof.
  cbn zeta. unfold summariseCode, try_catch, bind, call, ret. cbn zeta.
  destruct (generateContent caps _ (ext w)) as [[text|e] x1]; reflexivity.
Qed.

Lemma embed_document_store (doc : Document) (w : World X) :
  store (snd (embed_document caps doc w)) = store w.
Proof.
  unfold embed_document. unfold bind at 1. rewrite summariseCode_spec. cbn zeta.
  unfold bind, generateEmbedding, call, ret. cbn [ext store timeline].
  destruct (embedContent caps _ _) as [[v|e] x2]; reflexivity.
Qed.

Lemma embed_document_entry (doc : Document) (w w1 : World X) (e : Embedded) :
  embed_document caps doc w = (Ok e, w1) ->
  sourceCode e = pageContent doc /\ fileName e = source doc /\
  Ok (summary e) = fst (summariseCode caps doc w).
Proof.
  unfold embed_document. unfold bind at 1. rewrite summariseCode_spec. cbn zeta.
  unfold bind, generateEmbedding, call, ret. cbn [ext store timeline fst].
  destruct (embedContent caps _ _) as [[v|err] x2]; [|discriminate].
  intros [= <- <-]. cbn. auto.
Qed.

Lemma generateEmbeddings_cons (doc : Document) (docs : list Document) (w : World X) :
  generateEmbeddings caps (doc :: docs) w =
    let (r, w1) := embed_document caps doc w in
    let (rs, w2) := generateEmbeddings caps docs w1 in
    (match r, rs with
     | Ok a, Ok l => Ok (a :: l)
     | Ok _, Throw e => Throw e
     | Throw e, _ => Throw e
     end, w2).
Proof.
  unfold generateEmbeddings, Promise_all. cbn [map settle_all].
  destruct (embed_document caps doc w) as [r w1].
  destruct (settle_all _ w1) as [rs w2]. cbn [collect].
  destruct r; reflexivity.
Qed.

Lemma generateEmbeddings_store (docs : list Document) (w : World X) :
  store (snd (generateEmbeddings caps docs w)) = store w.
Proof.
  revert w. induction docs as [|doc docs IH]; intros w; [reflexivity|].
  rewrite generateEmbeddings_cons.
  pose proof (embed_document_store doc w) as H1.
  destruct (embed_document caps doc w) as [r w1]. cbn [snd] in H1.
  specialize (IH w1).
  destruct (generateEmbeddings caps docs w1) as [rs w2]. cbn [snd] in *.
  congruence.
Qed.

Lemma generateEmbeddings_entries (docs : list Document) :
  forall (w w2 : World X) (es : list Embedded),
    generateEmbeddings caps docs w = (Ok es, w2) ->
    Forall2 (fun e doc => sourceCode e = pageContent doc /\
                          fileName e = source doc) es docs.
Proof.
  induction docs as [|doc docs IH]; intros w w2 es.
  - cbn. intros [= <- <-]. constructor.
  - rewrite generateEmbeddings_cons.
    destruct (embed_document caps doc w) as [[e|err] w1] eqn:He.
    + destruct (generateEmbeddings caps docs w1) as [[l|err] w3] eqn:Hl;
        [|discriminate].
      intros [= <- <-].
      destruct (embed_document_entry doc w w1 e He) as (Hs & Hf & _).
      constructor; [split; assumption|]. exact (IH w1 w3 l Hl).
    + destruct (generateEmbeddings caps docs w1) as [rs w3]. discriminate.
Qed.

Lemma retry_loop_store {T} (fn : Async X T) :
  (forall w, store (snd (fn w)) = store w) ->
  forall fuel maxAttempts attempt w,
    store (snd (retry_loop fuel fn maxAttempts attempt w)) = store w.
Proof.
  intros Hfn. induction fuel as [|fuel IH]; intros m a w; cbn [retry_loop];
    [reflexivity|].
  case_bool_decide; [|reflexivity].
  specialize (Hfn w). destruct (fn w) as [[v|e] w1]; cbn [snd] in *;
    [exact Hfn|].
  case_bool_decide; [exact Hfn|].
  destruct (includes _ _); [|exact Hfn].
  rewrite IH. exact Hfn.
Qed.

Lemma loadGithubRepo_store (githubUrl : string) (githubToken : option string)
  (w : World X) :
  store (snd (loadGithubRepo caps githubUrl githubToken w)) = store w.
Proof.
  unfold loadGithubRepo, try_catch, retry.
  pose proof (retry_loop_store (load_docs caps githubUrl githubToken)) as H.
  specialize (H (fun w0 => ltac:(
    unfold load_docs, bind, call, ret;
    destruct (loaderLoad caps githubUrl githubToken (ext w0)) as [[d|e] x1];
    reflexivity)) 3%nat 3%nat 1%nat w).
  destruct (retry_loop 3 _ 3 1 w) as [[v|e] w1]; cbn [snd] in *; [exact H|].
  unfold throw. now destruct (includes _ _).
Qed.

(** Whatever the two storage statements do, the rows that were in the table
    stay, followed by at most one row per file, and ids stay fresh. *)
Lemma persist_all_rows (projectId : string) (es : list Embedded) :
  forall w : World X,
    ids_fresh (store w) ->
    let w1 := snd (Promise_allSettled (map (persist_embedding caps projectId) es) w) in
    exists new,
      sourceCodeEmbeddings (store w1) = sourceCodeEmbeddings (store w) ++ new /\
      (length new <= length es)%nat /\
      Forall (fun row =>
                exists e, e ∈ es /\
                  (row = created_row (e_id row) projectId e \/
                   row = complete_row (e_id row) projectId e)) new /\
      commits (store w1) = commits (store w) /\
      projects (store w1) = projects (store w) /\
      (next_id (store w) <= next_id (store w1))%nat /\
      ids_fresh (store w1).
Proof.
  unfold Promise_allSettled.
  induction es as [|e es IH]; intros w Hfresh; cbn [map settle_all].
  - exists []. cbn. rewrite app_nil_r. repeat split; auto.
  - pose proof (persist_embedding_fresh caps projectId e w Hfresh) as Hfresh1.
    pose proof (persist_embedding_spec caps projectId e w Hfresh) as Hspec.
    cbn zeta in Hspec.
    destruct (persist_embedding caps projectId e w) as [r w1]. cbn [snd] in Hfresh1.
    destruct (IH w1 Hfresh1) as (new & Htab & Hlen & Hrows & Hc & Hp & Hn & Hf).
    destruct (settle_all _ w1) as [rs w2]. cbn [snd] in *.
    assert (Hmono : forall row, (exists e0, e0 ∈ es /\
                  (row = created_row (e_id row) projectId e0 \/
                   row = complete_row (e_id row) projectId e0)) ->
               exists e0, e0 ∈ e :: es /\
                  (row = created_row (e_id row) projectId e0 \/
                   row = complete_row (e_id row) projectId e0)).
    { intros row (e0 & Hin & Hor). exists e0. split; [now right|exact Hor]. }
    destruct (embeddingCreateFault caps (fileName e) (ext w)) as [[err|] x1].
    + injection Hspec as -> ->. cbn [store] in *.
      exists new. repeat split; auto; try (cbn [length]; lia).
      eapply Forall_impl; [exact Hrows|exact Hmono].
    + destruct (executeRawFault caps (next_id (store w)) x1) as [[err|] x2];
        injection Hspec as -> ->;
        cbn [store add_embedding sourceCodeEmbeddings commits projects next_id] in *.
      * exists (created_row (next_id (store w)) projectId e :: new).
        rewrite Htab, <- app_assoc. cbn [app length]. repeat split; auto; try lia.
        constructor; [|eapply Forall_impl; [exact Hrows|exact Hmono]].
        exists e. split; [now left|]. left. reflexivity.
      * exists (complete_row (next_id (store w)) projectId e :: new).
        rewrite Htab, <- app_assoc. cbn [app length]. repeat split; auto; try lia.
        constructor; [|eapply Forall_impl; [exact Hrows|exact Hmono]].
        exists e. split; [now left|]. right. reflexivity.
Qed.

Lemma persist_all_next_id (projectId : string) (es : list Embedded) :
  (forall name x, fst (embeddingCreateFault caps name x) = None) ->
  (forall id x, fst (executeRawFault caps id x) = None) ->
  forall w : World X,
    ids_fresh (store w) ->
    next_id (store (snd (Promise_allSettled
                           (map (persist_embedding caps projectId) es) w)))
    = (next_id (store w) + length es)%nat.
Proof.
  intros Hc Hu. unfold Promise_allSettled.
  induction es as [|e es IH]; intros w Hfresh; cbn [map settle_all length].
  - cbn. lia.
  - pose proof (persist_embedding_fresh caps projectId e w Hfresh) as Hfresh1.
    rewrite persist_embedding_spec in * by exact Hfresh. cbn zeta in *.
    pose proof (Hc (fileName e) (ext w)) as H1.
    destruct (embeddingCreateFault caps (fileName e) (ext w)) as [fc x1].
    cbn [fst] in H1. subst fc.
    pose proof (Hu (next_id (store w)) x1) as H2.
    destruct (executeRawFault caps (next_id (store w)) x1) as [fu x2].
    cbn [fst] in H2. subst fu. cbn [snd] in Hfresh1.
    specialize (IH _ Hfresh1).
    destruct (settle_all _ _) as [rs w2]. cbn [snd] in *.
    rewrite IH. cbn [store add_embedding next_id]. lia.
Qed.

Lemma indexGithubRepo_unfold (projectId githubUrl : string)
  (githubToken : option string) (w : World X) :
  indexGithubRepo caps projectId githubUrl githubToken w =
    match loadGithubRepo caps githubUrl githubToken w with
    | (Ok (Some docs), w1) =>
        match generateEmbeddings caps docs w1 with
        | (Ok es, w2) =>
            (Ok tt,
             snd (Promise_allSettled
                    (map (persist_embedding caps projectId) es) w2))
        | (Throw e, w2) => (Throw e, w2)
        end
    | (Ok None, w1) =>
        (Throw (Error "Cannot read properties of undefined (reading 'map')"), w1)
    | (Throw e, w1) => (Throw e, w1)
    end.
Proof.
  unfold indexGithubRepo, bind, seq, throw, ret.
  destruct (loadGithubRepo caps githubUrl githubToken w) as [[[docs|]|e] w1];
    try reflexivity.
  destruct (generateEmbeddings caps docs w1) as [[es|e] w2]; [|reflexivity].
  unfold Promise_allSettled.
  destruct (settle_all _ w2) as [rs w3]. reflexivity.
Qed.

End EmbeddingMore.

(** X9. summariseCode never rejects: it sends the model one request whose
    code part is the first 10000 characters of the file (the whole file when
    it is shorter), fulfils with the model's text, and fulfils with the empty
    string when the request fails. *)
Theorem summariseCode_truncates {X : Type} (caps : Capabilities X)
  (doc : Document) (w : World X) :
  let code := String.substring 0 (Z.to_nat 10000) (pageContent doc) in
  let parts := summary_prompt doc code in
  summariseCode caps doc w =
    (Ok (match fst (generateContent caps parts (ext w)) with
         | Ok text => text
         | Throw _ => ""
         end),
     mkWorld (store w) (timeline w ++ [EvGenerateContent parts])
             (snd (generateContent caps parts (ext w)))) /\
  String.length code
    = Nat.min (Z.to_nat 10000) (String.length (pageContent doc)) /\
  String.prefix code (pageContent doc) = true /\
  ((String.length (pageContent doc) <= Z.to_nat 10000)%nat ->
   code = pageContent doc).
Proof.
  cbn zeta. split; [apply summariseCode_spec|].
  generalize (Z.to_nat 10000) as m. intros m.
  split; [apply substring_0_length|].
  split; [apply substring_0_prefix|apply substring_0_all].
Qed.

(** X10. generateEmbeddings never touches the database, and when it fulfils
    it yields one entry per loaded document, in the documents' order, whose
    [sourceCode] is the document's whole content (not the truncated text the
    summarizer saw) and whose [fileName] is the document's source path. *)
Theorem generateEmbeddings_shape {X : Type} (caps : Capabilities X)
  (docs : list Document) (w : World X) :
  store (snd (generateEmbeddings caps docs w)) = store w /\
  match fst (generateEmbeddings caps docs w) with
  | Ok es =>
      Forall2 (fun e doc => sourceCode e = pageContent doc /\
                            fileName e = source doc) es docs
  | Throw _ => True
  end.
Proof.
  split; [apply generateEmbeddings_store|].
  destruct (generateEmbeddings caps docs w) as [[es|e] w2] eqn:H; [|exact I].
  exact (generateEmbeddings_entries caps docs w w2 es H).
Qed.

(** X11. indexGithubRepo fulfils exactly when the repository loads and every
    file gets its embedding: the outcome of the storage statements never
    reaches the caller.  When it rejects, nothing was stored. *)
Theorem indexGithubRepo_outcome {X : Type} (caps : Capabilities X)
  (projectId githubUrl : string) (githubToken : option string) (w : World X) :
  let r := indexGithubRepo caps projectId githubUrl githubToken w in
  (is_ok (fst r) = true <->
   exists docs w1,
     loadGithubRepo caps githubUrl githubToken w = (Ok (Some docs), w1) /\
     is_ok (fst (generateEmbeddings caps docs w1)) = true) /\
  (is_ok (fst r) = true \/ store (snd r) = store w).
Proof.
  cbn zeta. rewrite indexGithubRepo_unfold.
  pose proof (loadGithubRepo_store caps githubUrl githubToken w) as Hload.
  destruct (loadGithubRepo caps githubUrl githubToken w) as [[[docs|]|e] w1];
    cbn [snd] in Hload.
  - pose proof (generateEmbeddings_store caps docs w1) as Hgen.
    destruct (generateEmbeddings caps docs w1) as [[es|e] w2] eqn:Hes;
      cbn [snd] in Hgen; cbn [fst snd is_ok].
    + split; [|now left].
      split; [|reflexivity]. intros _. exists docs, w1.
      split; [reflexivity|]. now rewrite Hes.
    + split; [|right; congruence].
      split; [discriminate|].
      intros (docs' & w1' & Heq & Hok). injection Heq as <- <-.
      rewrite Hes in Hok. discriminate.
  - cbn [fst snd is_ok]. split; [|now right].
    split; [discriminate|]. intros (docs' & w1' & Heq & _). discriminate.
  - cbn [fst snd is_ok]. split; [|now right].
    split; [discriminate|]. intros (docs' & w1' & Heq & _). discriminate.
Qed.

(** X12. Indexing only ever appends to the table of file records: the
    records that were there stay as they were, commits and projects are not
    touched, and every appended record belongs to the project and carries
    the path and the whole content of one loaded document, at most one
    record per document.  Nothing is appended when loading fails. *)
Theorem indexGithubRepo_appends_only {X : Type} (caps : Capabilities X)
  (projectId githubUrl : string) (githubToken : option string) (w : World X) :
  ids_fresh (store w) ->
  let w' := snd (indexGithubRepo caps projectId githubUrl githubToken w) in
  exists new,
    sourceCodeEmbeddings (store w') = sourceCodeEmbeddings (store w) ++ new /\
    commits (store w') = commits (store w) /\
    projects (store w') = projects (store w) /\
    Forall (fun row => e_projectId row = projectId) new /\
    match fst (loadGithubRepo caps githubUrl githubToken w) with
    | Ok (Some docs) =>
        (length new <= length docs)%nat /\
        Forall (fun row => exists doc, doc ∈ docs /\
                  e_fileName row = source doc /\
                  e_sourceCode row = pageContent doc) new
    | _ => new = []
    end.
Proof.
  intros Hfresh. cbn zeta. rewrite indexGithubRepo_unfold.
  pose proof (loadGithubRepo_store caps githubUrl githubToken w) as Hload.
  destruct (loadGithubRepo caps githubUrl githubToken w) as [[[docs|]|e] w1];
    cbn [snd fst] in *.
  - pose proof (generateEmbeddings_store caps docs w1) as Hgen.
    destruct (generateEmbeddings caps docs w1) as [[es|e] w2] eqn:Hes;
      cbn [snd] in *.
    + assert (Hfresh2 : ids_fresh (store w2)) by now rewrite Hgen, Hload.
      destruct (persist_all_rows caps projectId es w2 Hfresh2)
        as (new & Htab & Hlen & Hrows & Hc & Hp & _ & _).
      pose proof (generateEmbeddings_entries caps docs w1 w2 es Hes) as Hshape.
      exists new. rewrite Htab, Hc, Hp, Hgen, Hload.
      split; [reflexivity|]. split; [reflexivity|]. split; [reflexivity|].
      split; [|split].
      * eapply Forall_impl; [exact Hrows|].
        intros row (e0 & _ & [-> | ->]); reflexivity.
      * rewrite <- (Forall2_length _ _ _ Hshape). exact Hlen.
      * eapply Forall_impl; [exact Hrows|].
        intros row (e0 & Hin & Hrow).
        apply list_elem_of_lookup in Hin as [i Hi].
        destruct (Forall2_lookup_l _ _ _ _ _ Hshape Hi)
          as (doc & Hdoc & Hs & Hf).
        exists doc. split; [eapply list_elem_of_lookup_2; exact Hdoc|].
        destruct Hrow as [-> | ->]; cbn; auto.
    + exists []. rewrite app_nil_r, Hgen, Hload.
      repeat split; auto; cbn [length]; lia.
  - exists []. rewrite app_nil_r, Hload. repeat split; auto.
  - exists []. rewrite app_nil_r, Hload. repeat split; auto.
Qed.

Lemma indexGithubRepo_appends_only_witness :
  exists new,
    sourceCodeEmbeddings
      (store (snd (indexGithubRepo update_0_fails "p1" repo_url None world0)))
    = sourceCodeEmbeddings (store world0) ++ new /\
    length new = 2%nat.
Proof.
  destruct (indexGithubRepo_appends_only update_0_fails "p1" repo_url None world0)
    as (new & Htab & _); [constructor|].
  exists new. split; [exact Htab|].
  apply (f_equal (@length _)) in Htab. exact (eq_sym Htab).
Defined.

(** X13. The storage step does not look for an existing record of a file:
    running it a second time for the same files, on a store where no
    statement fails, leaves the first run's records in place and appends a
    second complete record for every file, under new ids. *)
Theorem persist_embedding_rerun_duplicates {X : Type} (caps : Capabilities X)
  (projectId : string) (es : list Embedded) (w : World X) :
  (forall name x, fst (embeddingCreateFault caps name x) = None) ->
  (forall id x, fst (executeRawFault caps id x) = None) ->
  ids_fresh (store w) ->
  let run := Promise_allSettled (map (persist_embedding caps projectId) es) in
  let n := next_id (store w) in
  sourceCodeEmbeddings (store (snd (run (snd (run w)))))
  = sourceCodeEmbeddings (store w)
    ++ imap (fun i e => complete_row (n + i) projectId e) es
    ++ imap (fun i e => complete_row (n + length es + i) projectId e) es.
Proof.
  intros Hc Hu Hfresh. cbn zeta.
  destruct (persist_all_rows caps projectId es w Hfresh)
    as (_ & _ & _ & _ & _ & _ & _ & Hfresh1).
  cbn zeta in Hfresh1.
  rewrite (persist_all_no_fault caps projectId es Hc Hu _ Hfresh1).
  rewrite (persist_all_next_id caps projectId es Hc Hu w Hfresh).
  rewrite (persist_all_no_fault caps projectId es Hc Hu w Hfresh).
  now rewrite <- app_assoc.
Qed.

Lemma persist_embedding_rerun_duplicates_witness :
  let run := Promise_allSettled
               (map (persist_embedding quiet "p1") [embedded_a; embedded_b]) in
  sourceCodeEmbeddings (store (snd (run (snd (run world0)))))
  = [ complete_row 0 "p1" embedded_a; complete_row 1 "p1" embedded_b;
      complete_row 2 "p1" embedded_a; complete_row 3 "p1" embedded_b ].
Proof.
  apply (persist_embedding_rerun_duplicates quiet "p1"
           [embedded_a; embedded_b] world0).
  - intros name x. reflexivity.
  - intros id x. reflexivity.
  - constructor.
Defined.

(** ** Question answering: prompt, requests and the client's state *)

Lemma str_app_nil_r (s : string) : s +:+ "" = s.
Proof.
  induction s as [|c s IH]; [reflexivity|].
  change (String c s +:+ "") with (String c (s +:+ "")). now rewrite IH.
Qed.

Lemma str_app_assoc (a b c : string) : (a +:+ b) +:+ c = a +:+ b +:+ c.
Proof.
  induction a as [|x a IH]; [reflexivity|].
  change (String x ((a +:+ b) +:+ c) = String x (a +:+ b +:+ c)).
  now rewrite IH.
Qed.

Lemma concat_empty_cons (x : string) (xs : list string) :
  String.concat "" (x :: xs) = x +:+ String.concat "" xs.
Proof.
  destruct xs; [symmetry; apply str_app_nil_r|reflexivity].
Qed.

Lemma prefix_app (n b : string) : String.prefix n (n +:+ b) = true.
Proof.
  induction n as [|c n IH]; [now destruct b|].
  change (String.prefix (String c n) (String c (n +:+ b)) = true).
  cbn [String.prefix].
  destruct (ascii_dec c c); [exact IH|contradiction].
Qed.

Lemma prefix_inv (n s : string) :
  String.prefix n s = true -> exists b, s = n +:+ b.
Proof.
  revert s. induction n as [|c n IH]; intros s H.
  - now exists s.
  - destruct s as [|c' s]; [discriminate|]. cbn [String.prefix] in H.
    destruct (ascii_dec c c') as [<-|]; [|discriminate].
    destruct (IH s H) as [b ->]. now exists b.
Qed.

Lemma includes_unfold (s needle : string) :
  includes s needle =
    if String.prefix needle s then true
    else match s with
         | EmptyString => false
         | String _ rest => includes rest needle
         end.
Proof. destruct s; reflexivity. Qed.

Lemma includes_here (needle b : string) : includes (needle +:+ b) needle = true.
Proof. now rewrite includes_unfold, prefix_app. Qed.

Lemma includes_app_r (a b needle : string) :
  includes b needle = true -> includes (a +:+ b) needle = true.
Proof.
  intros H. induction a as [|c a IH]; [exact H|].
  change (String c a +:+ b) with (String c (a +:+ b)).
  rewrite includes_unfold. now destruct (String.prefix needle _).
Qed.

Lemma includes_iff (s needle : string) :
  includes s needle = true <-> exists a b, s = a +:+ needle +:+ b.
Proof.
  split.
  - induction s as [|c s IH]; rewrite includes_unfold;
      destruct (String.prefix needle _) eqn:Hp.
    + intros _. destruct (prefix_inv _ _ Hp) as [b ->]. now exists "", b.
    + discriminate.
    + intros _. destruct (prefix_inv _ _ Hp) as [b Hb]. exists "", b. exact Hb.
    + intros H. destruct (IH H) as (a & b & ->). now exists (String c a), b.
  - intros (a & b & ->). apply includes_app_r, includes_here.
Qed.

Lemma includes_trans (s m needle : string) :
  includes s m = true -> includes m needle = true -> includes s needle = true.
Proof.
  rewrite !includes_iff. intros (a & b & ->) (a' & b' & ->).
  exists (a +:+ a'), (b' +:+ b). now rewrite !str_app_assoc.
Qed.

Lemma includes_concat (x : string) (l : list string) :
  x ∈ l -> includes (String.concat "" l) x = true.
Proof.
  induction l as [|y l IH]; intros Hin; [now apply elem_of_nil in Hin|].
  rewrite concat_empty_cons.
  apply elem_of_cons in Hin as [->|Hin].
  - apply includes_here.
  - apply includes_app_r, IH, Hin.
Qed.

Ltac find_part :=
  repeat first [ apply includes_here | apply includes_app_r ].

Section QuestionMore.

Context {X : Type} (caps : Capabilities X).

Lemma read_deltas_updates (l : list string) (rest : Streamable) (answer : string) :
  read_deltas ((SUpdate <$> l) ++ rest) answer
  = read_deltas rest (answer +:+ String.concat "" l).
Proof.
  revert answer. induction l as [|d l IH]; intros answer.
  - cbn. now rewrite str_app_nil_r.
  - cbn [fmap list_fmap app read_deltas]. rewrite IH, concat_empty_cons.
    destruct d as [|c d]; cbn [falsy].
    + reflexivity.
    + now rewrite str_app_assoc.
Qed.

(** What [askQuestion] returns and the world it leaves, written out. *)
Lemma askQuestion_run (question projectId : string) (w : World X) :
  askQuestion caps question projectId w =
    match embedContent caps question (ext w) with
    | (Throw e, x1) =>
        (Throw e, mkWorld (store w) (timeline w ++ [EvEmbedContent question]) x1)
    | (Ok queryVector, x1) =>
        match queryRawFault caps projectId x1, vectorOperator caps DISTANCE_OPERATOR with
        | (None, x2), Some distance =>
            let results :=
              map to_result (select_rows distance queryVector projectId (store w)) in
            let prompt := generatePrompt (formatContext results) question in
            let completion := generateContentStream caps prompt x2 in
            (Ok (mkQuestionResponse
                   ((SUpdate <$> delivered (fst completion))
                      ++ [terminal_event (fst completion)])
                   results),
             mkWorld (store w)
               ((timeline w ++ [EvEmbedContent question])
                  ++ [EvGenerateContentStream prompt])
               (snd completion))
        | (_, x2), _ =>
            (Throw (Error "Failed to search codebase"),
             mkWorld (store w) (timeline w ++ [EvEmbedContent question]) x2)
        end
    end.
Proof.
  unfold askQuestion, generateEmbedding, performVectorSearch, queryRaw_select,
    try_catch, bind, call, fault, get_store, ret, throw.
  destruct (embedContent caps question (ext w)) as [[v|e] x1]; [|reflexivity].
  cbn [ext store timeline].
  destruct (queryRawFault caps projectId x1) as [[err|] x2];
    destruct (vectorOperator caps DISTANCE_OPERATOR) as [distance|];
    try reflexivity.
  cbn [ext store timeline]. cbn zeta.
  unfold stream_answer, streamText, try_catch, bind, call, ret, throw,
    createStreamableValue, stream_done, stream_error.
  cbn [ext store timeline].
  destruct (generateContentStream caps _ x2) as [[textStream|e] x3];
    cbn [fst snd delivered terminal_event]; [|reflexivity].
  rewrite for_await_update_spec. cbn [app].
  destruct (failure textStream); reflexivity.
Qed.

End QuestionMore.

(** X15. askQuestion reads the database and never writes it.  It sends one
    embedding request, for the question as typed; when that request or the
    search fails it rejects without asking for a completion; otherwise it
    asks for exactly one completion, with the prompt built from the files it
    returns as references, also when no file was found. *)
Theorem askQuestion_requests {X : Type} (caps : Capabilities X)
  (question projectId : string) (w : World X) :
  let r := askQuestion caps question projectId w in
  store (snd r) = store w /\
  match fst r with
  | Ok response =>
      timeline (snd r) =
        timeline w ++
          [EvEmbedContent question;
           EvGenerateContentStream
             (generatePrompt (formatContext (filesReferences response)) question)]
  | Throw e =>
      timeline (snd r) = timeline w ++ [EvEmbedContent question] /\
      (fst (embedContent caps question (ext w)) = Throw e \/
       e = Error "Failed to search codebase")
  end.
Proof.
  cbn zeta. rewrite askQuestion_run.
  destruct (embedContent caps question (ext w)) as [[v|e] x1]; cbn [fst snd store timeline].
  - destruct (queryRawFault caps projectId x1) as [[err|] x2];
      destruct (vectorOperator caps DISTANCE_OPERATOR) as [distance|];
      cbn [fst snd store timeline filesReferences]; auto.
    split; [reflexivity|]. now rewrite <- app_assoc.
  - auto.
Qed.

(** X16. The prompt askQuestion sends contains the question between its
    markers and, for every retrieved file, its path, its stored source and
    its summary, all of them inside the context block; the blocks of the
    files follow each other in the order of the search results. *)
Theorem generatePrompt_contents (results : list SourceCodeResult)
  (question : string) :
  let context := formatContext results in
  let prompt := generatePrompt context question in
  context = String.concat "" (context_block <$> results) /\
  includes prompt
    ("START CONTEXT BLOCK" +:+ nl +:+ "    " +:+ context +:+ nl
       +:+ "    END CONTEXT BLOCK") = true /\
  includes prompt
    ("START QUESTION" +:+ nl +:+ "    " +:+ question +:+ nl
       +:+ "    END OF QUESTION") = true /\
  Forall (fun doc =>
            includes context (context_block doc) = true /\
            includes prompt (r_fileName doc) = true /\
            includes prompt (r_sourceCode doc) = true /\
            includes prompt (r_summary doc) = true) results.
Proof.
  cbn zeta.
  assert (Hctx : includes (generatePrompt (formatContext results) question)
                   (formatContext results) = true).
  { unfold generatePrompt. find_part. }
  split; [reflexivity|].
  split.
  { apply includes_iff.
    exists (nl
      +:+ "    You are an AI code assistant who answers questions about the codebase. Your target audience is a technical intern." +:+ nl
      +:+ "    You are a powerful, human-like artificial intelligence with expert knowledge in coding." +:+ nl
      +:+ "    You are helpful, articulate, and provide detailed technical explanations." +:+ nl
      +:+ nl
      +:+ "    When answering questions about code or specific files, provide detailed, step-by-step instructions." +:+ nl
      +:+ nl
      +:+ "    ").
    eexists. unfold generatePrompt. rewrite !str_app_assoc. reflexivity. }
  split.
  { apply includes_iff. unfold generatePrompt.
    exists (nl
      +:+ "    You are an AI code assistant who answers questions about the codebase. Your target audience is a technical intern." +:+ nl
      +:+ "    You are a powerful, human-like artificial intelligence with expert knowledge in coding." +:+ nl
      +:+ "    You are helpful, articulate, and provide detailed technical explanations." +:+ nl
      +:+ nl
      +:+ "    When answering questions about code or specific files, provide detailed, step-by-step instructions." +:+ nl
      +:+ nl
      +:+ "    START CONTEXT BLOCK" +:+ nl
      +:+ "    " +:+ formatContext results +:+ nl
      +:+ "    END CONTEXT BLOCK" +:+ nl
      +:+ nl
      +:+ "    ").
    eexists. rewrite !str_app_assoc. reflexivity. }
  apply Forall_forall. intros doc Hin.
  assert (Hblock : includes (formatContext results) (context_block doc) = true).
  { change (formatContext results)
      with (String.concat "" (context_block <$> results)).
    apply includes_concat. exact (list_elem_of_fmap_2 context_block _ _ Hin). }
  split; [exact Hblock|].
  repeat split; (eapply includes_trans; [exact Hctx|]);
    (eapply includes_trans; [exact Hblock|]); unfold context_block; find_part.
Qed.

(** X17. The question card.  Without a project id the handler only alerts:
    no request is sent and the card is unchanged.  With one, the dialog is
    opened and the loading flag raised; the chunks of the answer are appended
    to the answer already on display, which is never cleared; the references
    are replaced by those of the response; and the loading flag is lowered
    only when the stream ends normally: when the stream ends with an error,
    or the action rejects, the handler rejects and the flag stays raised. *)
Theorem onSubmit_outcome {X : Type} (caps : Capabilities X) (id : string)
  (s : CardState) (w : World X) :
  falsy id = false ->
  onSubmit caps None s w = (Alerted "No Project has been specified", s, w) /\
  onSubmit caps (Some "") s w = (Alerted "No Project has been specified", s, w) /\
  match askQuestion caps (ui_question s) id w with
  | (Throw e, w1) =>
      onSubmit caps (Some id) s w =
        (Rejected e,
         mkCardState true (ui_question s) true (ui_filesReferences s) (ui_answer s),
         w1)
  | (Ok response, w1) =>
      exists chunks last_event,
        output response = (SUpdate <$> chunks) ++ [last_event] /\
        onSubmit caps (Some id) s w =
          (match last_event with
           | SDone => Returned
           | SError e => Rejected e
           | SUpdate _ => Waiting
           end,
           mkCardState true (ui_question s)
             (match last_event with SDone => false | _ => true end)
             (filesReferences response)
             (ui_answer s +:+ String.concat "" chunks),
           w1) /\
        is_terminal last_event = true
  end.
Proof.
  intros Hid. split; [reflexivity|]. split; [reflexivity|].
  unfold onSubmit. rewrite Hid. rewrite askQuestion_run.
  destruct (embedContent caps (ui_question s) (ext w)) as [[v|e] x1];
    [|reflexivity].
  destruct (queryRawFault caps id x1) as [[err|] x2];
    destruct (vectorOperator caps DISTANCE_OPERATOR) as [distance|];
    try reflexivity.
  cbn zeta.
  destruct (generateContentStream caps _ x2) as [completion x3]. cbn [fst snd].
  exists (delivered completion), (terminal_event completion).
  split; [reflexivity|].
  cbn [output filesReferences ui_answer]. rewrite read_deltas_updates.
  destruct completion as [textStream|e]; cbn [terminal_event read_deltas].
  - destruct (failure textStream); split; reflexivity.
  - split; reflexivity.
Qed.

Lemma onSubmit_outcome_witness :
  exists chunks last_event w1,
    onSubmit stream_breaks (Some "p1") card0 project_world =
      (match last_event with
       | SDone => Returned
       | SError e => Rejected e
       | SUpdate _ => Waiting
       end,
       mkCardState true (ui_question card0)
         (match last_event with SDone => false | _ => true end)
         []
         (ui_answer card0 +:+ String.concat "" chunks),
       w1) /\
    is_terminal last_event = true.
Proof.
  destruct (onSubmit_outcome stream_breaks "p1" card0 project_world eq_refl)
    as (_ & _ & chunks & last_event & _ & Hrun & Hterm).
  exists chunks, last_event. eexists. split; [exact Hrun|exact Hterm].
Defined.

(** The card after a stream of three chunks that ends with an error. *)
Example onSubmit_three_chunks_then_error :
  fst (onSubmit stream_breaks (Some "p1") card0 project_world)
  = (Rejected server_error,
     mkCardState true "where is the home page?" true []
       "Earlier answer. Hello,  world").
Proof. reflexivity. Qed.

(** ** The retry executor on every run *)

(** X18. Whatever [fn] does, a call of withRetry ends: after at most four
    rate-limited attempts, each followed by the next delay of RETRY_DELAYS,
    one more attempt ends the call with its own outcome, so [fn] runs at
    most five times and the waits add up to at most 15000 ms.  Called with a
    retry count of four or more, or when the first attempt is not a
    rate-limited failure, withRetry is a single call of [fn]. *)
Theorem withRetry_always_ends {X T : Type} (fn : Async X T) (w : World X) :
  (exists (k : nat) (rs : list (Res T)) (w' : World X) (r : Res T),
     (k <= 4)%nat /\
     attempts fn (take k RETRY_DELAYS) w = (rs, w') /\
     length rs = S k /\
     (forall i ri, (i < k)%nat -> rs !! i = Some ri -> rate_limited_failure ri) /\
     rs !! k = Some r /\
     (k = 4%nat \/ ~ rate_limited_failure r) /\
     withRetry fn 0 w = (r, w') /\
     0 <= total_wait (take k RETRY_DELAYS) <= 15000) /\
  (forall retryCount,
     (4 <= retryCount)%nat \/ ~ rate_limited_failure (fst (fn w)) ->
     withRetry fn retryCount w = fn w).
Proof.
  split.
  - destruct (attempts_stop fn rate_limited_failure RETRY_DELAYS w)
      as (k & rs & w' & r & Hk & Hatt & Hpre & Hlast & Hstop).
    change (length RETRY_DELAYS) with 4%nat in *.
    exists k, rs, w', r.
    split; [exact Hk|]. split; [exact Hatt|].
    split.
    { pose proof (attempts_length fn (take k RETRY_DELAYS) w) as Hlen.
      rewrite Hatt in Hlen. cbn [fst] in Hlen. rewrite Hlen, length_take.
      change (length RETRY_DELAYS) with 4%nat. f_equal. lia. }
    split; [exact Hpre|]. split; [exact Hlast|]. split; [exact Hstop|].
    split.
    + unfold withRetry.
      apply (withRetry_loop_schedule fn k 0 _ w w' rs r);
        change (length RETRY_DELAYS) with 4%nat; try lia; auto.
    + do 5 (destruct k as [|k]; [cbv; split; discriminate|]). lia.
  - intros retryCount Hsingle. unfold withRetry.
    destruct Hsingle as [Hrc|Hnot].
    + change (length RETRY_DELAYS) with 4%nat.
      replace (4 - retryCount)%nat with 0%nat by lia.
      cbn [withRetry_loop]. destruct (fn w) as [[v|e] w1]; [reflexivity|].
      change (length RETRY_DELAYS) with 4%nat.
      rewrite (bool_decide_eq_false_2 (retryCount < 4)%nat) by lia.
      now rewrite andb_false_r.
    + destruct (length RETRY_DELAYS - retryCount)%nat; cbn [withRetry_loop];
        destruct (fn w) as [[v|e] w1]; try reflexivity;
        cbn [fst rate_limited_failure] in Hnot;
        destruct (status_is_429 e); try reflexivity; now exfalso.
Qed.

(** ** The first revision of the commit pipeline *)

Section FirstRevisionFacts.

Context {X : Type} (caps : Capabilities X).

Lemma summariesCommit_v1_quiet (githubUrl commitHash : string) (w : World X) :
  store (snd (summariesCommit_v1 caps githubUrl commitHash w)) = store w /\
  waits_of (timeline (snd (summariesCommit_v1 caps githubUrl commitHash w)))
    = waits_of (timeline w).
Proof.
  unfold summariesCommit_v1, bind, call, ret. cbn zeta.
  destruct (axiosGet caps _ (ext w)) as [[data|e] x1]; cbn [ext store timeline snd].
  - destruct (aiSummarizeCommit caps data x1) as [[summary|e] x2];
      cbn [ext store timeline snd]; rewrite !waits_of_app; cbn;
      now rewrite !app_nil_r.
  - rewrite waits_of_app. cbn. now rewrite app_nil_r.
Qed.

Lemma summaries_v1_settled (githubUrl : string) (cs : list Response) :
  forall w : World X,
    let r := settle_all
               (map (fun commit => summariesCommit_v1 caps githubUrl (commitHash commit))
                    cs) w in
    length (fst r) = length cs /\
    store (snd r) = store w /\
    waits_of (timeline (snd r)) = waits_of (timeline w).
Proof.
  induction cs as [|c cs IH]; intros w; cbn [map settle_all]; [auto|].
  destruct (summariesCommit_v1_quiet githubUrl (commitHash c) w) as [Hs Ht].
  destruct (summariesCommit_v1 caps githubUrl (commitHash c) w) as [r w1].
  cbn [snd] in Hs, Ht.
  specialize (IH w1). cbn zeta in IH.
  destruct (settle_all _ w1) as [rs w2]. cbn [fst snd length] in *.
  destruct IH as (Hl & Hs2 & Ht2). repeat split; congruence.
Qed.

Lemma zip_with_rows {A B C} (f : A -> B -> C) (P : C -> A -> Prop)
  (l : list A) :
  (forall a b, P (f a b) a) ->
  forall k : list B, length k = length l -> Forall2 P (zip_with f l k) l.
Proof.
  intros Hf. induction l as [|a l IH]; intros [|b k] Hlen; cbn in *;
    try discriminate; constructor; [apply Hf|].
  apply IH. lia.
Qed.

Lemma summariesCommit_v1_determined (githubUrl commitHash : string)
  (fetch summarize : string -> Res string) (w : World X) :
  (forall url x, fst (axiosGet caps url x) = fetch url) ->
  (forall data x, fst (aiSummarizeCommit caps data x) = summarize data) ->
  match fst (summariesCommit_v1 caps githubUrl commitHash w) with
  | Ok value => value
  | Throw _ => ""
  end = summary_v1_of (fetch (diff_url githubUrl commitHash)) summarize.
Proof.
  intros Hfetch Hsum.
  rewrite <- (Hfetch (diff_url githubUrl commitHash) (ext w)).
  unfold summariesCommit_v1, bind, call, ret, summary_v1_of. cbn zeta.
  destruct (axiosGet caps _ (ext w)) as [[data|e] x1]; cbn [fst ext]; [|reflexivity].
  rewrite <- (Hsum data x1).
  destruct (aiSummarizeCommit caps data x1) as [[summary|e] x2]; cbn [fst];
    [|reflexivity].
  now destruct summary.
Qed.

Lemma summaries_v1_determined (githubUrl : string) (cs : list Response)
  (fetch summarize : string -> Res string) :
  (forall url x, fst (axiosGet caps url x) = fetch url) ->
  (forall data x, fst (aiSummarizeCommit caps data x) = summarize data) ->
  forall w : World X,
    map (fun response =>
           match response with
           | Ok value => value
           | Throw _ => ""
           end)
        (fst (settle_all
                (map (fun commit =>
                        summariesCommit_v1 caps githubUrl (commitHash commit))
                     cs) w))
    = map (fun commit =>
             summary_v1_of (fetch (diff_url githubUrl (commitHash commit)))
               summarize) cs.
Proof.
  intros Hfetch Hsum. induction cs as [|c cs IH]; intros w; [reflexivity|].
  cbn [map settle_all].
  pose proof (summariesCommit_v1_determined githubUrl (commitHash c)
                fetch summarize w Hfetch Hsum) as Hc.
  destruct (summariesCommit_v1 caps githubUrl (commitHash c) w) as [r w1].
  specialize (IH w1).
  destruct (settle_all _ w1) as [rs w2]. cbn [fst map] in *.
  now rewrite Hc, IH.
Qed.

Lemma zip_with_summaries {A B C} (f : A -> B -> C) (g : A -> B)
  (P : C -> A -> Prop) (l : list A) :
  (forall a, P (f a (g a)) a) -> Forall2 P (zip_with f l (map g l)) l.
Proof.
  intros Hf. induction l as [|a l IH]; cbn; constructor; auto.
Qed.

End FirstRevisionFacts.

(** X19. The first [getCommitHashes] calls the listing once, with no retry:
    a failure of the listing, rate limit or not, is its own failure.  From
    the commits listed it returns the ten most recent ones, newest first:
    it keeps at most ten, and every commit it keeps is at least as recent as
    every commit it leaves out. *)
Theorem getCommitHashes_v1_ten_newest {X : Type} (getTime : string -> Z)
  (listCommits : string -> string -> X -> Res (list GhCommit) * X)
  (githubUrl owner repo : string) (w : World X) :
  owner_and_repo githubUrl = Some (owner, repo) ->
  let w1 := mkWorld (store w) (timeline w ++ [EvListCommits githubUrl])
              (snd (listCommits owner repo (ext w))) in
  match fst (listCommits owner repo (ext w)) with
  | Throw e =>
      getCommitHashes_v1_written_out getTime listCommits githubUrl w = (Throw e, w1)
  | Ok data =>
      exists kept left_out,
        getCommitHashes_v1_written_out getTime listCommits githubUrl w
          = (Ok (to_response <$> kept), w1) /\
        kept ++ left_out ≡ₚ data /\
        length kept = Nat.min 10 (length data) /\
        StronglySorted (newer_or_same getTime) kept /\
        (forall a b, a ∈ kept -> b ∈ left_out -> newer_or_same getTime a b)
  end.
Proof.
  intros Hurl. cbn zeta.
  unfold getCommitHashes_v1_written_out. rewrite Hurl.
  unfold bind, call, ret.
  destruct (listCommits owner repo (ext w)) as [[data|e] x1]; cbn [fst snd];
    [|reflexivity].
  pose proof (sort_newest_first_sorted getTime data) as Hsorted.
  pose proof (sort_newest_first_perm getTime data) as Hperm.
  rewrite <- (take_drop 10 (sort_newest_first getTime data)) in Hsorted, Hperm.
  exists (take 10 (sort_newest_first getTime data)),
         (drop 10 (sort_newest_first getTime data)).
  split; [reflexivity|]. split; [exact Hperm|].
  split.
  { rewrite length_take. f_equal.
    apply Permutation_length, sort_newest_first_perm. }
  split; [exact (StronglySorted_app_1_l _ _ _ Hsorted)|].
  intros a b Ha Hb. exact (StronglySorted_app_1_elem_of _ _ _ _ _ Hsorted Ha Hb).
Qed.

Lemma getCommitHashes_v1_ten_newest_witness :
  exists kept left_out,
    fst (getCommitHashes_v1_written_out day_of list_twelve
           "https://github.com/o/r" world0)
      = Ok (to_response <$> kept) /\
    kept ++ left_out ≡ₚ gh_day <$> twelve_days /\
    length kept = 10%nat.
Proof.
  destruct (getCommitHashes_v1_ten_newest day_of list_twelve
              "https://github.com/o/r" "o" "r" world0 eq_refl)
    as (kept & left_out & Hrun & Hperm & Hlen & _).
  exists kept, left_out. split; [|split; [exact Hperm|exact Hlen]].
  exact (f_equal fst Hrun).
Defined.

(** The hashes kept of the twelve: those of days 12 down to 3. *)
Example getCommitHashes_v1_twelve_days :
  commitHash <$>
    match fst (getCommitHashes_v1_written_out day_of list_twelve
                 "https://github.com/o/r" world0) with
    | Ok listing => listing
    | Throw _ => []
    end
  = ["s12"; "s11"; "s10"; "s9"; "s8"; "s7"; "s6"; "s5"; "s4"; "s3"].
Proof. reflexivity. Qed.

(** X20. The first [pollCommits] stores all or nothing, in one statement:
    when it fulfils, the commit table has grown by exactly one row per listed
    commit that was not stored for the project, in the listing's order and
    with that commit's fields, whether or not its summary could be made, and
    the count returned is the number of those rows; when it rejects, the
    store is as it was.  It never waits.  Over services whose answers depend
    on the request only, the summary stored with a commit is the summarizer's
    text for the diff of that commit, and the empty string when the diff
    request or the summarizer fails. *)
Theorem pollCommits_v1_all_or_nothing {X : Type} (caps : Capabilities X)
  (createManyFault : list CommitRow -> X -> option JsError * X)
  (projectId : string) (w : World X) :
  let r := pollCommits_v1 caps createManyFault projectId w in
  waits_of (timeline (snd r)) = waits_of (timeline w) /\
  exists new,
    store (snd r) = add_commits (store w) new /\
    match fst r with
    | Throw _ => new = []
    | Ok count =>
        count = length new /\
        exists project listing,
          project ∈ projects (store w) /\ project_id project = projectId /\
          fst (listRecentCommits caps (githubUrl project) (ext w)) = Ok listing /\
          Forall2 (fun row commit =>
                     c_projectId row = projectId /\
                     c_commitHash row = commitHash commit /\
                     c_commitMessage row = commitMessage commit /\
                     c_commitAuthorName row = commitAuthorName commit /\
                     c_commitAuthorAvatar row = commitAuthorAvatar commit /\
                     c_commitDate row = commitDate commit)
                  new (unprocessed projectId (store w) listing) /\
          forall fetch summarize : string -> Res string,
            (forall url x, fst (axiosGet caps url x) = fetch url) ->
            (forall data x, fst (aiSummarizeCommit caps data x) = summarize data) ->
            Forall2 (fun row commit =>
                       c_summary row
                       = summary_v1_of
                           (fetch (diff_url (githubUrl project) (commitHash commit)))
                           summarize)
                    new (unprocessed projectId (store w) listing)
    end.
Proof.
  cbn zeta.
  assert (Hnil : store w = add_commits (store w) []).
  { unfold add_commits. rewrite app_nil_r. now destruct (store w). }
  remember (pollCommits_v1 caps createManyFault projectId w) as r eqn:Hr.
  unfold pollCommits_v1 in Hr. unfold bind at 1 in Hr.
  destruct (fetchProjectGithubUrl_cases projectId w)
    as [[_ Hp]|(project & Hin & Hid & Hp)]; rewrite Hp in Hr.
  { subst r. cbn [fst snd]. split; [reflexivity|]. exists []. now split. }
  unfold bind at 1 in Hr. unfold getCommitHashes_v1, call in Hr.
  destruct (listRecentCommits caps (githubUrl project) (ext w))
    as [[listing|e] x1] eqn:Hlist.
  2:{ subst r. cbn [fst snd timeline store]. rewrite waits_of_app. cbn.
      rewrite app_nil_r. split; [reflexivity|]. exists []. now split. }
  unfold bind at 1 in Hr. rewrite filterUnprocessedCommits_v1_spec in Hr.
  cbn [store timeline ext] in Hr.
  set (w1 := mkWorld (store w) (timeline w ++ [EvListCommits (githubUrl project)]) x1) in Hr.
  set (us := unprocessed projectId (store w) listing) in Hr.
  unfold bind at 1 in Hr. unfold Promise_allSettled in Hr.
  destruct (summaries_v1_settled caps (githubUrl project) us w1)
    as (Hlen & Hstore & Hwaits).
  pose proof (fun fetch summarize Hf Hs =>
                summaries_v1_determined caps (githubUrl project) us
                  fetch summarize Hf Hs w1) as Hdet.
  destruct (settle_all _ w1) as [rs w2].
  cbn [fst snd] in Hlen, Hstore, Hwaits, Hdet.
  assert (Hw1 : waits_of (timeline w1) = waits_of (timeline w)).
  { unfold w1. cbn [timeline]. rewrite waits_of_app. cbn. now rewrite app_nil_r. }
  assert (Hs1 : store w1 = store w) by reflexivity.
  unfold db_commit_createMany, bind, fault, get_store, put_store, ret in Hr.
  match type of Hr with
  | context [createManyFault ?l (ext w2)] => set (rows := l) in Hr
  end.
  destruct (createManyFault rows (ext w2)) as [[err|] x3]; subst r;
    cbn [fst snd store timeline].
  - split; [congruence|]. exists []. split; [congruence|reflexivity].
  - split; [congruence|]. exists rows.
    split; [unfold add_commits; now rewrite Hstore, Hs1|].
    split; [reflexivity|].
    exists project, listing.
    split; [exact Hin|]. split; [exact Hid|]. split; [now rewrite Hlist|].
    split.
    + unfold rows. apply zip_with_rows.
      * intros commit summary. cbn. auto 10.
      * now rewrite length_map.
    + intros fetch summarize Hf Hs. unfold rows.
      rewrite (Hdet fetch summarize Hf Hs).
      apply zip_with_summaries. intros commit. reflexivity.
Qed.

Lemma pollCommits_v1_all_or_nothing_witness :
  let r := pollCommits_v1 third_summary_fails createMany_ok "p1" project_world in
  let fetch url := fst (axiosGet third_summary_fails url 0%nat) in
  let summarize data := fst (aiSummarizeCommit third_summary_fails data 0%nat) in
  exists new project listing,
    store (snd r) = add_commits (store project_world) new /\
    project ∈ projects (store project_world) /\
    fst (listRecentCommits third_summary_fails (githubUrl project) 0%nat)
      = Ok listing /\
    Forall2 (fun row commit =>
               c_summary row
               = summary_v1_of
                   (fetch (diff_url (githubUrl project) (commitHash commit)))
                   summarize)
            new (unprocessed "p1" (store project_world) listing).
Proof.
  cbn zeta.
  destruct (pollCommits_v1_all_or_nothing third_summary_fails createMany_ok
              "p1" project_world) as (_ & new & Hstore & Hres).
  assert (Hok : fst (pollCommits_v1 third_summary_fails createMany_ok "p1"
                       project_world) = Ok 5%nat) by reflexivity.
  rewrite Hok in Hres.
  destruct Hres as (_ & project & listing & Hin & _ & Hlist & _ & Hsum).
  exists new, project, listing.
  split; [exact Hstore|]. split; [exact Hin|]. split; [exact Hlist|].
  apply (Hsum (fun url => fst (axiosGet third_summary_fails url 0%nat))
              (fun data => fst (aiSummarizeCommit third_summary_fails data 0%nat)));
    intros; reflexivity.
Defined.

(** With the summarizer failing for the third of five new commits, the first
    [pollCommits] stores five rows, the third with an empty summary. *)
Example pollCommits_v1_third_summary_fails :
  let r := pollCommits_v1 third_summary_fails createMany_ok "p1" project_world in
  fst r = Ok 5%nat /\
  c_summary <$> commits (store (snd r))
  = [ "about diff " +:+ diff_url repo_url "a1";
      "about diff " +:+ diff_url repo_url "b2";
      "";
      "about diff " +:+ diff_url repo_url "d4";
      "about diff " +:+ diff_url repo_url "e5" ].
Proof. split; reflexivity. Qed.
